(** * Document-Processing-Pipeline: the upload-to-processing pipeline

    A shallow embedding of [app/models.py] and [app/main.py]: the
    [Document] table, the three HTTP handlers, the Celery task
    [process_document] and the start-up hook [lifespan].

    Handlers are written in a small monad [M] that threads the state the
    Python code touches (the committed table, the bucket, the broker queue,
    the SQLAlchemy session and the local variable [doc]), propagates
    exceptions, and records every observable effect in the order it
    happens.

    Fault model.  Calls to the object store and to the broker may raise;
    which ones do is decided by an environment [Env] the handlers take as
    an argument.  The relational store is reliable: queries, commits,
    rollbacks and closing a session do not raise.  One invocation runs at a
    time; interleavings of concurrent sessions are not modelled. *)

From Stdlib Require Import Ascii String.
From stdpp Require Import base gmap strings list pretty.

Open Scope string_scope.
Open Scope Z_scope.
Open Scope list_scope.

(** ** app/models.py *)

Module models.

Inductive DocumentStatus := QUEUED | PROCESSING | PROCESSED | FAILED.

(** The string stored in the column and sent in JSON. *)
Definition value (s : DocumentStatus) : string :=
  match s with
  | QUEUED => "queued"
  | PROCESSING => "processing"
  | PROCESSED => "processed"
  | FAILED => "failed"
  end.

(** One row of the table [documents]. *)
Record Document := {
  id : Z;
  filename : string;
  s3_path : string;
  upload_time : Z;
  status : DocumentStatus;
}.

Definition with_status (s : DocumentStatus) (d : Document) : Document :=
  {| id := id d; filename := filename d; s3_path := s3_path d;
     upload_time := upload_time d; status := s |}.

Definition terminal (s : DocumentStatus) : bool :=
  match s with
  | PROCESSED | FAILED => true
  | QUEUED | PROCESSING => false
  end.

End models.

Import models.

#[global] Instance DocumentStatus_eq_dec : EqDecision DocumentStatus.
Proof. solve_decision. Defined.

#[global] Instance Document_eq_dec : EqDecision Document.
Proof. solve_decision. Defined.

(** ** Exceptions and effects *)

(** The exception classes that occur.  [ClientError] is botocore's, with
    the value of [e.response['Error']['Code']]; [OtherException] stands for
    any other subclass of [Exception]. *)
Inductive Exn :=
| HTTPException (status_code : Z) (detail : string)
| NameError (msg : string)
| ValueError (msg : string)
| AttributeError (msg : string)
| RuntimeError (msg : string)
| ClientError (code : string) (msg : string)
| OtherException (msg : string).

(** What a collaborator raises: botocore's [ClientError], or anything else
    (a connection error of the object store, an error of the broker). *)
Inductive Fault :=
| ClientErr (code msg : string)
| Failure (msg : string).

Definition thrown (f : Fault) : Exn :=
  match f with
  | ClientErr c m => ClientError c m
  | Failure m => OtherException m
  end.

(** [str(e)], as the f-strings of the handlers print it. *)
Definition str (e : Exn) : string :=
  match e with
  | HTTPException c d => pretty c +:+ ": " +:+ d
  | NameError m | ValueError m | AttributeError m | RuntimeError m
  | ClientError _ m | OtherException m => m
  end.

(** Observable effects.  [DbCommit] carries the table as it stands once the
    commit is done, which is what any other session sees from then on. *)
Inductive Event :=
| Print (msg : string)
| Sleep (secs : Z)
| PutObject (key : string) (ok : bool)
| GetObject (key : string) (ok : bool)
| DbCommit (rows : list Document)
| DbRollback
| DbClose
| Enqueue (task : string) (arg : Z) (ok : bool).

#[global] Instance Event_eq_dec : EqDecision Event.
Proof. solve_decision. Defined.

(** ** State *)

(** What persists between requests: the committed rows, the primary-key
    sequence and clock of the database server, the bucket [BUCKET_NAME],
    and the jobs sitting in the broker. *)
Record World := {
  table : list Document;
  id_seq : Z;
  now : Z;
  bucket : gmap string (list Byte.byte);
  broker : list Z;
}.

(** A SQLAlchemy session as far as the handlers use one: objects added and
    awaiting their INSERT, attribute changes awaiting their UPDATE, the
    primary key the last INSERT produced, and the two flags. *)
Record Session := {
  new : list (string * string);
  dirty : list (Z * DocumentStatus);
  inserted : option Z;
  is_active : bool;
  closed : bool;
}.

Definition SessionLocal_ : Session :=
  {| new := []; dirty := []; inserted := None; is_active := true; closed := false |}.

(** The state of one invocation: the world, the session [db], and the local
    variable [doc] of [process_document]. *)
Record Frame := {
  world : World;
  db : Session;
  doc : option Document;
}.

Definition enter (w : World) : Frame :=
  {| world := w; db := SessionLocal_; doc := None |}.

(** ** The monad *)

Inductive Res (A : Type) :=
| Val (a : A)
| Exc (e : Exn).
Arguments Val {A} a.
Arguments Exc {A} e.

Definition M (A : Type) : Type := Frame -> Res A * Frame * list Event.

#[global] Instance M_ret : MRet M := fun A a s => (Val a, s, []).

#[global] Instance M_bind : MBind M := fun A B k m s =>
  match m s with
  | (Val a, s1, t1) => let '(r, s2, t2) := k a s1 in (r, s2, t1 ++ t2)
  | (Exc e, s1, t1) => (Exc e, s1, t1)
  end.

Definition raise {A} (e : Exn) : M A := fun s => (Exc e, s, []).

Definition lift {A} (r : Res A) : M A := fun s => (r, s, []).

Definition emit (ev : Event) : M unit := fun s => (Val tt, s, [ev]).

Definition print (msg : string) : M unit := emit (Print msg).

Definition get_frame : M Frame := fun s => (Val s, s, []).

(** [try: body  except Exception as e: handler e]. *)
Definition try_except {A} (body : M A) (handler : Exn -> M A) : M A := fun s =>
  match body s with
  | (Val a, s1, t1) => (Val a, s1, t1)
  | (Exc e, s1, t1) => let '(r, s2, t2) := handler e s1 in (r, s2, t1 ++ t2)
  end.

(** [try: body  finally: fin]; an exception of [fin] replaces the outcome
    of [body]. *)
Definition try_finally {A} (body : M A) (fin : M unit) : M A := fun s =>
  let '(r, s1, t1) := body s in
  match fin s1 with
  | (Val _, s2, t2) => (r, s2, t1 ++ t2)
  | (Exc e, s2, t2) => (Exc e, s2, t1 ++ t2)
  end.

(** ** The session *)

Definition set_world (w : World) : M unit := fun s =>
  (Val tt, {| world := w; db := db s; doc := doc s |}, []).

Definition set_db (d : Session) : M unit := fun s =>
  (Val tt, {| world := world s; db := d; doc := doc s |}, []).

Definition set_doc (d : option Document) : M unit := fun s =>
  (Val tt, {| world := world s; db := db s; doc := d |}, []).

Definition set_table (rows : list Document) (seq : Z) (w : World) : World :=
  {| table := rows; id_seq := seq; now := now w; bucket := bucket w; broker := broker w |}.

(** [db.query(models.Document).filter(models.Document.id == k).first()]. *)
Definition query_first (k : Z) (rows : list Document) : option Document :=
  List.find (fun d => bool_decide (id d = k)) rows.

(** INSERT of the objects added with [db.add]: the server assigns the
    primary key and [upload_time]; [status] takes the column default. *)
Fixpoint flush_new (objs : list (string * string)) (w : World) : World * option Z :=
  match objs with
  | [] => (w, None)
  | (f, p) :: rest =>
      let row := {| id := id_seq w; filename := f; s3_path := p;
                    upload_time := now w; status := QUEUED |} in
      let w1 := set_table (table w ++ [row]) (id_seq w + 1) w in
      match flush_new rest w1 with
      | (w2, Some k) => (w2, Some k)
      | (w2, None) => (w2, Some (id row))
      end
  end.

(** UPDATE of one changed attribute, by primary key. *)
Definition update_status (k : Z) (st : DocumentStatus) (rows : list Document) : list Document :=
  List.map (fun d => if bool_decide (id d = k) then with_status st d else d) rows.

Definition flush_dirty (ch : list (Z * DocumentStatus)) (rows : list Document) : list Document :=
  List.fold_left (fun acc c => update_status (fst c) (snd c) acc) ch rows.

(** [db.commit()]: flush, then make the result visible. *)
Definition db_commit : M unit :=
  s ← get_frame;
  let '(w1, k) := flush_new (new (db s)) (world s) in
  let w2 := set_table (flush_dirty (dirty (db s)) (table w1)) (id_seq w1) w1 in
  set_world w2 ;;
  set_db {| new := []; dirty := [];
            inserted := match k with Some _ => k | None => inserted (db s) end;
            is_active := is_active (db s); closed := closed (db s) |} ;;
  emit (DbCommit (table w2)).

(** [db.rollback()]: drop what was not flushed; the session is active
    again. *)
Definition db_rollback : M unit :=
  s ← get_frame;
  set_db {| new := []; dirty := []; inserted := inserted (db s);
            is_active := true; closed := closed (db s) |} ;;
  emit DbRollback.

(** [db.close()]. *)
Definition db_close : M unit :=
  s ← get_frame;
  set_db {| new := []; dirty := []; inserted := inserted (db s);
            is_active := is_active (db s); closed := true |} ;;
  emit DbClose.

(** [db = SessionLocal()]. *)
Definition SessionLocal : M unit := set_db SessionLocal_.

(** [db.add(models.Document(filename=f, s3_path=p))]. *)
Definition db_add (f p : string) : M unit :=
  s ← get_frame;
  set_db {| new := new (db s) ++ [(f, p)]; dirty := dirty (db s);
            inserted := inserted (db s);
            is_active := is_active (db s); closed := closed (db s) |}.

(** [db.refresh(db_document)] for the object the last commit inserted. *)
Definition db_refresh : M Document :=
  s ← get_frame;
  match inserted (db s) with
  | Some k =>
      match query_first k (table (world s)) with
      | Some d => mret d
      | None => raise (OtherException "Could not refresh instance")
      end
  | None => raise (OtherException "Instance is not persistent within this Session")
  end.

(** [db.query(...).filter(...).first()] in the monad. *)
Definition db_query_first (k : Z) : M (option Document) :=
  s ← get_frame;
  mret (query_first k (table (world s))).

(** [doc.status = st]: the object in memory changes and the session
    remembers the change for the next flush. *)
Definition doc_set_status (st : DocumentStatus) : M unit :=
  s ← get_frame;
  match doc s with
  | Some d =>
      set_doc (Some (with_status st d)) ;;
      set_db {| new := new (db s); dirty := dirty (db s) ++ [(id d, st)];
                inserted := inserted (db s);
                is_active := is_active (db s); closed := closed (db s) |}
  | None => raise (AttributeError "'NoneType' object has no attribute 'status'")
  end.

(** The dependency [get_db]: open a session, run the handler, close the
    session on every exit path. *)
Definition get_db {A} (handler : M A) : M A :=
  SessionLocal ;;
  try_finally handler db_close.

(** ** What FastAPI sends *)

Inductive Body :=
| JsonDocument (d : Document)
| JsonDetail (detail : string)
| JsonMessage (message : string)
| PlainText (text : string).

Record Response := { status_code_ : Z; body : Body }.

(** A returned value is serialised with status 200, an [HTTPException]
    becomes its status code with [{"detail": ...}], and any other exception
    becomes the server's plain 500. *)
Definition respond (r : Res Document) : Response :=
  match r with
  | Val d => {| status_code_ := 200; body := JsonDocument d |}
  | Exc (HTTPException c d) => {| status_code_ := c; body := JsonDetail d |}
  | Exc _ => {| status_code_ := 500; body := PlainText "Internal Server Error" |}
  end.

(** ** GET /status/{document_id} *)

Definition get_document_status (document_id : Z) : M Document :=
  db_document ← db_query_first document_id;
  match db_document with
  | None => raise (HTTPException 404 "Document not found")
  | Some d => mret d
  end.

Definition status_endpoint (document_id : Z) (w : World) : Response * World * list Event :=
  let '(r, s, t) := get_db (get_document_status document_id) (enter w) in
  (respond r, world s, t).

(** ** Collaborators: object store and broker *)

(** Which calls of one invocation raise, and with what. *)
Record Env := {
  client_fault : option Fault;
  put_fault : option Fault;
  get_fault : option Fault;
  enqueue_fault : option Fault;
}.

Definition healthy : Env :=
  {| client_fault := None; put_fault := None; get_fault := None; enqueue_fault := None |}.

Record UploadFile := {
  file_name : string;
  file : list Byte.byte;
}.

Definition set_bucket (b : gmap string (list Byte.byte)) (w : World) : World :=
  {| table := table w; id_seq := id_seq w; now := now w; bucket := b; broker := broker w |}.

Definition set_broker (q : list Z) (w : World) : World :=
  {| table := table w; id_seq := id_seq w; now := now w; bucket := bucket w; broker := q |}.

(** [boto3.client('s3', ...)]. *)
Definition boto3_client (env : Env) : M unit :=
  match client_fault env with
  | Some e => raise (thrown e)
  | None => mret tt
  end.

(** [minio_client.upload_fileobj(file.file, BUCKET_NAME, key)]: the key is
    overwritten when it exists. *)
Definition upload_fileobj (env : Env) (content : list Byte.byte) (key : string) : M unit :=
  match put_fault env with
  | Some e => emit (PutObject key false) ;; raise (thrown e)
  | None =>
      s ← get_frame;
      set_world (set_bucket (<[key := content]> (bucket (world s))) (world s)) ;;
      emit (PutObject key true)
  end.

Definition NoSuchKey : Exn :=
  ClientError "NoSuchKey"
    "An error occurred (NoSuchKey) when calling the GetObject operation: The specified key does not exist.".

(** [minio_client.get_object(Bucket=BUCKET_NAME, Key=key)['Body'].read()]. *)
Definition get_object (env : Env) (key : string) : M (list Byte.byte) :=
  match get_fault env with
  | Some e => emit (GetObject key false) ;; raise (thrown e)
  | None =>
      s ← get_frame;
      match bucket (world s) !! key with
      | Some content => emit (GetObject key true) ;; mret content
      | None => emit (GetObject key false) ;; raise NoSuchKey
      end
  end.

(** [process_document.delay(k)]. *)
Definition delay (env : Env) (k : Z) : M unit :=
  match enqueue_fault env with
  | Some e => emit (Enqueue "process_document" k false) ;; raise (thrown e)
  | None =>
      s ← get_frame;
      set_world (set_broker (broker (world s) ++ [k]) (world s)) ;;
      emit (Enqueue "process_document" k true)
  end.

(** ** Python's [int(str)] on a header value

    Header values are Latin-1 text.  [int] skips white space, takes an
    optional sign, and reads the run of decimal digits and underscores
    that follows; an underscore must stand between two digits.  A run of
    more than 4300 digits, the interpreter's default limit, is refused
    before what follows it is looked at.  After the run only white space
    may come.  The message of the [ValueError] quotes the text as [repr]
    prints it. *)

Definition is_space (c : ascii) : bool :=
  let n := Z.of_nat (nat_of_ascii c) in
  ((9 <=? n) && (n <=? 13)) || (n =? 32) || (n =? 133) || (n =? 160).

Fixpoint lstrip (s : string) : string :=
  match s with
  | String c r => if is_space c then lstrip r else s
  | EmptyString => s
  end.

Definition digit (c : ascii) : option Z :=
  let n := Z.of_nat (nat_of_ascii c) in
  if (48 <=? n) && (n <=? 57) then Some (n - 48) else None.

(** What the character before the current one was. *)
Inductive Prev := AtStart | AfterDigit | AfterUnderscore.

(** The run of digits and underscores at the head of a text: its value, the
    number of its digits, and the text left. *)
Inductive Scan :=
| BadRun
| Run (value count : Z) (rest : string).

Definition end_run (acc count : Z) (prev : Prev) (rest : string) : Scan :=
  match prev with
  | AfterUnderscore => BadRun
  | AtStart | AfterDigit => Run acc count rest
  end.

Fixpoint scan (acc count : Z) (prev : Prev) (s : string) : Scan :=
  match s with
  | EmptyString => end_run acc count prev s
  | String c r =>
      match digit c with
      | Some d => scan (10 * acc + d) (count + 1) AfterDigit r
      | None =>
          if bool_decide (c = "_"%char) then
            match prev with
            | AfterDigit => scan acc count AfterUnderscore r
            | AtStart | AfterUnderscore => BadRun
            end
          else end_run acc count prev s
      end
  end.

Definition single_quote : ascii := "'"%char.

Definition double_quote : ascii := "034"%char.

Definition backslash : ascii := "\"%char.

Definition hex_digit (n : Z) : ascii :=
  ascii_of_nat (Z.to_nat (if n <? 10 then 48 + n else 87 + n)).

(** The characters [repr] prints as they are. *)
Definition printable (c : ascii) : bool :=
  let n := Z.of_nat (nat_of_ascii c) in
  ((32 <=? n) && (n <=? 126)) || ((161 <=? n) && (n <=? 172))
  || ((174 <=? n) && (n <=? 255)).

Definition occurs (c : ascii) (s : string) : bool :=
  existsb (fun x => bool_decide (x = c)) (list_ascii_of_string s).

Definition escape (quote c : ascii) : string :=
  let n := Z.of_nat (nat_of_ascii c) in
  if bool_decide (c = quote) || bool_decide (c = backslash)
  then String backslash (String c "")
  else if n =? 9 then "\t"
  else if n =? 10 then "\n"
  else if n =? 13 then "\r"
  else if printable c then String c ""
  else String backslash
         (String "x"%char (String (hex_digit (n / 16)) (String (hex_digit (n mod 16)) ""))).

Fixpoint escaped (quote : ascii) (s : string) : string :=
  match s with
  | EmptyString => ""
  | String c r => escape quote c +:+ escaped quote r
  end.

(** [repr(s)]: single quotes, unless the text has a single quote and no
    double quote. *)
Definition repr (s : string) : string :=
  let quote :=
    if occurs single_quote s && negb (occurs double_quote s)
    then double_quote else single_quote in
  String quote (escaped quote s +:+ String quote "").

Definition MAX_STR_DIGITS : Z := 4300.

Definition invalid_literal (s : string) : Exn :=
  ValueError ("invalid literal for int() with base 10: " +:+ repr s).

Definition too_many_digits (count : Z) : Exn :=
  ValueError ("Exceeds the limit (" +:+ pretty MAX_STR_DIGITS
              +:+ " digits) for integer string conversion: value has "
              +:+ pretty count
              +:+ " digits; use sys.set_int_max_str_digits() to increase the limit").

Definition int (s : string) : Res Z :=
  let t := lstrip s in
  let '(sign, u) := match t with
                    | String "+"%char u => (1, u)
                    | String "-"%char u => (-1, u)
                    | _ => (1, t)
                    end in
  match scan 0 0 AtStart u with
  | BadRun => Exc (invalid_literal s)
  | Run value count rest =>
      if bool_decide (count > MAX_STR_DIGITS) then Exc (too_many_digits count)
      else if bool_decide (count = 0) then Exc (invalid_literal s)
      else match lstrip rest with
           | EmptyString => Val (sign * value)
           | String _ _ => Exc (invalid_literal s)
           end
  end.

(** ** POST /upload/ *)

Definition MAX_FILE_SIZE : Z := 25 * 1024 * 1024.

(** [str] of a float whose value is the integer [q]. *)
Definition float_str (q : Z) : string := pretty q +:+ ".0".

Record Request := { headers : gmap string string }.

(** What the free name [request] of [upload_document] resolves to when the
    body runs.  The handler's parameters are [file] and [db]; main.py
    imports the class [Request] and binds no name [request], so in the
    module as it stands the lookup fails. *)
Definition Namespace := option Request.

Definition main_namespace : Namespace := None.

Definition lookup_request (ns : Namespace) : M Request :=
  match ns with
  | Some r => mret r
  | None => raise (NameError "name 'request' is not defined")
  end.

(** [if not content_length]: [None] and the empty string are falsy; what is
    left is a value to hand to [int]. *)
Definition truthy (v : option string) : option string :=
  match v with
  | Some s => if bool_decide (s = "") then None else Some s
  | None => None
  end.

Definition too_large : Exn :=
  HTTPException 413
    ("File is too large. Limit is " +:+ float_str (MAX_FILE_SIZE / 1024 / 1024) +:+ " MB.").

Definition upload_document (ns : Namespace) (env : Env) (f : UploadFile) : M Document :=
  request ← lookup_request ns;
  let content_length := headers request !! "content-length" in
  match truthy content_length with
  | None => raise (HTTPException 411 "Content-Length header required.")
  | Some content_length =>
  file_size ← lift (int content_length);
  if bool_decide (file_size > MAX_FILE_SIZE) then raise too_large else
  boto3_client env ;;
  let s3_key := file_name f in
  try_except
    (upload_fileobj env (file f) s3_key ;;
     print ("Successfully uploaded '" +:+ file_name f +:+ "' to MinIO."))
    (fun e => raise (HTTPException 500
                       ("An unexpected error occurred during upload: " +:+ str e))) ;;
  db_add (file_name f) s3_key ;;
  db_commit ;;
  db_document ← db_refresh;
  delay env (id db_document) ;;
  print ("Queued task for '" +:+ file_name f +:+ "' in Redis.") ;;
  mret db_document
  end.

(** One run of the handler under [get_db], for a given resolution of
    [request]. *)
Definition run_upload (ns : Namespace) (env : Env) (f : UploadFile) (w : World)
  : Res Document * World * list Event :=
  let '(r, s, t) := get_db (upload_document ns env f) (enter w) in
  (r, world s, t).

(** The route as main.py registers it.  FastAPI hands the body [file] and
    [db]; the incoming request is not among its parameters, and [request]
    is looked up in the module. *)
Definition upload_endpoint (env : Env) (incoming : Request) (f : UploadFile) (w : World)
  : Response * World * list Event :=
  let '(r, w', t) := run_upload main_namespace env f w in
  (respond r, w', t).

(** ** The Celery task *)

Definition process_document (env : Env) (document_id : Z) : M unit :=
  SessionLocal ;;
  set_doc None ;;
  try_finally
    (try_except
       (d ← db_query_first document_id;
        set_doc d ;;
        match d with
        | None => print ("Document with ID " +:+ pretty document_id +:+ " not found.")
        | Some d =>
            doc_set_status PROCESSING ;;
            db_commit ;;
            print ("Processing document: " +:+ filename d +:+ " (ID: " +:+ pretty (id d) +:+ ")") ;;
            boto3_client env ;;
            file_content ← get_object env (filename d);
            print ("--- Extracted content from " +:+ filename d +:+ ", "
                   +:+ pretty (Z.of_nat (length file_content)) +:+ " bytes ---") ;;
            doc_set_status PROCESSED ;;
            print ("Finished processing document: " +:+ filename d)
        end)
       (fun e =>
          print ("Failed to process document " +:+ pretty document_id
                 +:+ ". Error: " +:+ str e) ;;
          db_rollback ;;
          s ← get_frame;
          match doc s with
          | Some _ => doc_set_status FAILED
          | None => mret tt
          end))
    (s ← get_frame;
     (if is_active (db s) then db_commit else mret tt) ;;
     db_close ;;
     print ("Database session closed for document " +:+ pretty document_id +:+ ".")).

(** One run of the worker on a world. *)
Definition worker (env : Env) (document_id : Z) (w : World) : Res unit * World * Session * list Event :=
  let '(r, s, t) := process_document env document_id (enter w) in
  (r, world s, db s, t).

(** ** Start-up: [lifespan] up to its [yield] *)

Record Config := {
  BUCKET_NAME : string;
  MINIO_ENDPOINT : string;
}.

(** The handle [boto3.client] returns. *)
Inductive Client := S3Client.

(** What the object store does at one pass of the loop: whether building
    the client raises, whether [head_bucket] raises, and whether
    [create_bucket] would. *)
Record Attempt := {
  client_raises : option Fault;
  head_bucket : option Fault;
  create_bucket : option Fault;
}.

Definition retries : nat := 5.

Definition delay_secs : Z := 2.

Inductive Flow :=
| Break
| Continue
| Propagate (e : Exn).

(** The two [except] clauses, with the value [minio_client] has when the
    exception arrives.  An exception raised inside a clause leaves the
    loop. *)
Definition on_exception (cfg : Config) (a : Attempt) (i : nat)
    (minio_client : option Client) (e : Exn) : Flow * list Event :=
  match e with
  | ClientError code _ =>
      if bool_decide (code = "404") then
        let t := [Print ("Bucket '" +:+ BUCKET_NAME cfg +:+ "' not found. Creating it...")] in
        match minio_client with
        | None =>
            (Propagate (AttributeError "'NoneType' object has no attribute 'create_bucket'"), t)
        | Some _ =>
            match create_bucket a with
            | Some e' => (Propagate (thrown e'), t)
            | None =>
                (Break, t ++ [Print ("✅ Bucket '" +:+ BUCKET_NAME cfg
                                     +:+ "' created. Connection successful.")])
            end
        end
      else
        (Continue,
         [Print ("Attempt " +:+ pretty (Z.of_nat i + 1) +:+ "/" +:+ pretty (Z.of_nat retries)
                 +:+ " failed with a ClientError: " +:+ str e +:+ ". Retrying in "
                 +:+ pretty delay_secs +:+ "s...");
          Sleep delay_secs])
  | _ =>
      (Continue,
       [Print ("Attempt " +:+ pretty (Z.of_nat i + 1) +:+ "/" +:+ pretty (Z.of_nat retries)
               +:+ " failed to connect to MinIO: " +:+ str e +:+ ". Retrying in "
               +:+ pretty delay_secs +:+ "s...");
        Sleep delay_secs])
  end.

(** The body of the [for] loop at index [i]: the flow, the new value of
    [minio_client], and the effects. *)
Definition attempt (cfg : Config) (a : Attempt) (i : nat) (minio_client : option Client)
  : Flow * option Client * list Event :=
  match client_raises a with
  | Some e =>
      let '(fl, t) := on_exception cfg a i minio_client (thrown e) in (fl, minio_client, t)
  | None =>
      let minio_client := Some S3Client in
      match head_bucket a with
      | None =>
          (Break, minio_client,
           [Print ("✅ Successfully connected to MinIO. Bucket '" +:+ BUCKET_NAME cfg
                   +:+ "' found.")])
      | Some e =>
          let '(fl, t) := on_exception cfg a i minio_client (thrown e) in
          (fl, minio_client, t)
      end
  end.

(** [for i in range(retries)], with [n] passes left. *)
Fixpoint connect (cfg : Config) (store : nat -> Attempt) (n i : nat)
    (minio_client : option Client) : Res (option Client) * list Event :=
  match n with
  | O => (Val minio_client, [])
  | S n' =>
      match attempt cfg (store i) i minio_client with
      | (Break, mc, t) => (Val mc, t)
      | (Propagate e, _, t) => (Exc e, t)
      | (Continue, mc, t) =>
          let '(r, t') := connect cfg store n' (S i) mc in (r, t ++ t')
      end
  end.

(** [Val tt] is reaching [yield]: the application starts to serve.  [Exc]
    is start-up aborted. *)
Definition lifespan (cfg : Config) (store : nat -> Attempt) : Res unit * list Event :=
  let t0 := [Print "Application startup: Initializing MinIO connection...";
             Print ("Attempting to connect to MinIO at: http://" +:+ MINIO_ENDPOINT cfg
                    +:+ ":9000")] in
  match connect cfg store retries 0 None with
  | (Exc e, t) => (Exc e, t0 ++ t)
  | (Val None, t) =>
      (Exc (RuntimeError "Could not connect to MinIO after several retries."), t0 ++ t)
  | (Val (Some _), t) => (Val tt, t0 ++ t)
  end.

(** ** GET / *)

Definition read_root : Response :=
  {| status_code_ := 200; body := JsonMessage "Welcome to the Document Processing API" |}.

(** * Concrete runs *)

Definition doc1 (st : DocumentStatus) : Document :=
  {| id := 1; filename := "a.txt"; s3_path := "a.txt"; upload_time := 100; status := st |}.

Definition ten_bytes : list Byte.byte := replicate 10 Byte.x61.

Definition empty_world : World :=
  {| table := []; id_seq := 1; now := 100; bucket := ∅; broker := [] |}.

(** The world after a.txt was uploaded and its row reached status [st]. *)
Definition world1 (st : DocumentStatus) : World :=
  {| table := [doc1 st]; id_seq := 2; now := 101;
     bucket := {[ "a.txt" := ten_bytes ]}; broker := [] |}.

Definition a_txt : UploadFile := {| file_name := "a.txt"; file := ten_bytes |}.

Definition with_length (v : string) : Request :=
  {| headers := {[ "content-length" := v ]} |}.

Definition no_length : Request := {| headers := ∅ |}.

Definition unreachable : Fault :=
  Failure "Could not connect to the endpoint URL".

Definition store_down : Env :=
  {| client_fault := None; put_fault := Some unreachable;
     get_fault := Some unreachable; enqueue_fault := None |}.

Definition broker_down : Env :=
  {| client_fault := None; put_fault := None; get_fault := None;
     enqueue_fault := Some (Failure "Error 111 connecting to redis:6379. Connection refused.") |}.

(** The object store refuses every connection during start-up. *)
Definition store_unreachable : nat -> Attempt := fun _ =>
  {| client_raises := None; head_bucket := Some unreachable; create_bucket := None |}.

Definition default_config : Config :=
  {| BUCKET_NAME := "documents"; MINIO_ENDPOINT := "minio" |}.

(** * Vocabulary of the statements *)

(** Primary key: no two rows share an [id]. *)
Definition primary_key (rows : list Document) : Prop := NoDup (id <$> rows).

(** The tables the commits of a run made visible, in order. *)
Definition commits (t : list Event) : list (list Document) :=
  omap (fun ev => match ev with DbCommit rows => Some rows | _ => None end) t.

(** The statuses row [k] went through in the commits of a run. *)
Definition history (k : Z) (t : list Event) : list DocumentStatus :=
  omap (fun rows => status <$> query_first k rows) (commits t).

(** The effects of a run on the collaborators, without what it printed. *)
Definition effects (t : list Event) : list Event :=
  List.filter (fun ev => match ev with Print _ => false | _ => true end) t.

(** The session once [db.close()] ran. *)
Definition released : Session :=
  {| new := []; dirty := []; inserted := None; is_active := true; closed := true |}.

(** Lines 187 to 201 of the task on their own: build the client, read the
    object.  Only the outcome is kept. *)
Definition fetch (env : Env) (w : World) (key : string) : Res (list Byte.byte) :=
  fst (fst ((boto3_client env ;; get_object env key) (enter w))).

(** The row the INSERT of an upload produces. *)
Definition inserted_row (f : UploadFile) (w : World) : Document :=
  {| id := id_seq w; filename := file_name f; s3_path := file_name f;
     upload_time := now w; status := QUEUED |}.

(** The world once the object is written and the row committed. *)
Definition stored (f : UploadFile) (w : World) : World :=
  set_table (table w ++ [inserted_row f w]) (id_seq w + 1)
    (set_bucket (<[file_name f := file f]> (bucket w)) w).

(** The four ways a run of the upload handler under [get_db] can end:
    rejected before any effect, the write of the object failed, the job
    could not be enqueued, or the document was queued. *)
Inductive UploadRun (env : Env) (f : UploadFile) (w : World)
  : Res Document * World * list Event -> Prop :=
| upload_rejected (e : Exn) :
    UploadRun env f w (Exc e, w, [DbClose])
| upload_write_failed (e : Fault) :
    put_fault env = Some e ->
    UploadRun env f w
      (Exc (HTTPException 500
              ("An unexpected error occurred during upload: " +:+ str (thrown e))),
       w,
       [PutObject (file_name f) false; DbClose])
| upload_enqueue_failed (e : Fault) (d : Document) :
    put_fault env = None ->
    enqueue_fault env = Some e ->
    query_first (id_seq w) (table (stored f w)) = Some d ->
    UploadRun env f w
      (Exc (thrown e),
       stored f w,
       [PutObject (file_name f) true;
        Print ("Successfully uploaded '" +:+ file_name f +:+ "' to MinIO.");
        DbCommit (table (stored f w));
        Enqueue "process_document" (id d) false;
        DbClose])
| upload_queued (d : Document) :
    put_fault env = None ->
    enqueue_fault env = None ->
    query_first (id_seq w) (table (stored f w)) = Some d ->
    UploadRun env f w
      (Val d,
       set_broker (broker w ++ [id d]) (stored f w),
       [PutObject (file_name f) true;
        Print ("Successfully uploaded '" +:+ file_name f +:+ "' to MinIO.");
        DbCommit (table (stored f w));
        Enqueue "process_document" (id d) true;
        Print ("Queued task for '" +:+ file_name f +:+ "' in Redis.");
        DbClose]).

(** The two answers of the Status Handler. *)
Definition found (d : Document) : Response :=
  {| status_code_ := 200; body := JsonDocument d |}.

Definition not_found : Response :=
  {| status_code_ := 404; body := JsonDetail "Document not found" |}.

(** The table a run of the worker leaves. *)
Definition table_after (env : Env) (document_id : Z) (w : World) : list Document :=
  table (snd (fst (fst (worker env document_id w)))).

(** The reading under which a terminal status is final: whatever the worker
    is invoked with, a row that is PROCESSED or FAILED is the same row
    afterwards. *)
Definition terminal_is_final : Prop :=
  forall (env : Env) (document_id : Z) (w : World) (d : Document),
    query_first document_id (table w) = Some d ->
    terminal (status d) = true ->
    query_first document_id (table_after env document_id w) = Some d.

(** What the server sends for an exception no handler caught. *)
Definition server_error : Response :=
  {| status_code_ := 500; body := PlainText "Internal Server Error" |}.

(** The pauses of a run, in seconds. *)
Definition sleeps (t : list Event) : list Z :=
  omap (fun ev => match ev with Sleep s => Some s | _ => None end) t.

(** What a row is apart from its status. *)
Definition core (d : Document) : Z * string * string * Z :=
  (id d, filename d, s3_path d, upload_time d).

(** The world a run of the worker leaves. *)
Definition world_after (env : Env) (document_id : Z) (w : World) : World :=
  snd (fst (fst (worker env document_id w))).

(** The status a run of the worker ends with for row [d]: decided by the
    fetch alone. *)
Definition outcome (env : Env) (w : World) (d : Document) : DocumentStatus :=
  match fetch env w (filename d) with
  | Val _ => PROCESSED
  | Exc _ => FAILED
  end.

(** The world a run of the upload handler leaves. *)
Definition world_uploaded (ns : Namespace) (env : Env) (f : UploadFile) (w : World) : World :=
  snd (fst (run_upload ns env f w)).

(** The primary keys in use are unique and behind the sequence. *)
Definition fresh_ids (w : World) : Prop :=
  primary_key (table w) /\ forall d, In d (table w) -> id d < id_seq w.

(** Every row names, in both of its columns, an object the bucket holds. *)
Definition rows_have_objects (w : World) : Prop :=
  forall d, In d (table w) ->
    s3_path d = filename d /\ is_Some (bucket w !! filename d).

(** The request carries a Content-Length that [int] reads as [n]. *)
Definition declares (req : Request) (n : Z) : Prop :=
  exists v, truthy (headers req !! "content-length") = Some v /\ int v = Val n.

(** A failure the start-up loop retries after: anything but a
    [ClientError] with code 404. *)
Definition retryable (f : Fault) : Prop :=
  match f with
  | ClientErr code _ => code <> "404"
  | Failure _ => True
  end.

(** A pass of the start-up loop that fails and is retried. *)
Definition transient (a : Attempt) : Prop :=
  match client_raises a with
  | Some f => retryable f
  | None =>
      match head_bucket a with
      | Some f => retryable f
      | None => False
      end
  end.

(** A pass at which the client is built and the bucket found. *)
Definition bucket_found (a : Attempt) : Prop :=
  client_raises a = None /\ head_bucket a = None.

(** A pass at which the client is built and [head_bucket] answers 404. *)
Definition bucket_missing (a : Attempt) : Prop :=
  client_raises a = None /\ exists m, head_bucket a = Some (ClientErr "404" m).

(** * Properties *)

(** ** The table *)

Section Table.

Implicit Types (k : Z) (st : DocumentStatus) (rows : list Document) (d : Document).

Lemma query_first_Some k rows d :
  query_first k rows = Some d -> id d = k /\ In d rows.
Proof.
  unfold query_first. intros H. apply find_some in H as [Hin Hk].
  apply bool_decide_eq_true in Hk. auto.
Qed.

Lemma query_first_None k rows :
  query_first k rows = None <-> (forall d, In d rows -> id d <> k).
Proof.
  unfold query_first. split.
  - intros H d Hin Hk. apply (find_none _ _ H) in Hin.
    apply bool_decide_eq_false in Hin. auto.
  - intros H. induction rows as [|r rows IH]; [reflexivity|]. simpl.
    rewrite bool_decide_eq_false_2 by (apply H; left; reflexivity).
    apply IH. intros d Hd. apply H. right. exact Hd.
Qed.

Lemma query_first_unique k rows d :
  primary_key rows -> In d rows -> id d = k -> query_first k rows = Some d.
Proof.
  unfold primary_key, query_first. induction rows as [|r rows IH]; simpl.
  - intros _ [].
  - intros Hnd Hin Hk. apply NoDup_cons in Hnd as [Hr Hnd].
    destruct Hin as [->|Hin].
    + rewrite bool_decide_eq_true_2; auto.
    + rewrite bool_decide_eq_false_2; [auto|].
      intros Heq. apply Hr. rewrite Heq, <- Hk.
      apply list_elem_of_In, in_map, Hin.
Qed.

Lemma query_first_update k st rows :
  query_first k (update_status k st rows) = with_status st <$> query_first k rows.
Proof.
  unfold query_first, update_status. induction rows as [|r rows IH]; [reflexivity|].
  simpl. destruct (bool_decide (id r = k)) eqn:E; simpl.
  - rewrite E. reflexivity.
  - rewrite E. exact IH.
Qed.

Lemma query_first_update_ne k k' st rows :
  k <> k' -> query_first k' (update_status k st rows) = query_first k' rows.
Proof.
  intros Hne. unfold query_first, update_status.
  induction rows as [|r rows IH]; [reflexivity|].
  simpl. destruct (bool_decide (id r = k)) eqn:E; simpl.
  - apply bool_decide_eq_true in E.
    rewrite !bool_decide_eq_false_2 by congruence. exact IH.
  - destruct (bool_decide (id r = k')); [reflexivity|exact IH].
Qed.

Lemma update_status_twice k st st' rows :
  update_status k st' (update_status k st rows) = update_status k st' rows.
Proof.
  unfold update_status. rewrite map_map. apply map_ext. intros r.
  destruct (bool_decide (id r = k)) eqn:E; simpl; rewrite E; reflexivity.
Qed.

Lemma update_status_other k st rows d :
  In d rows -> id d <> k -> In d (update_status k st rows).
Proof.
  intros Hin Hk. unfold update_status. apply in_map_iff. exists d.
  rewrite bool_decide_eq_false_2 by exact Hk. auto.
Qed.

Lemma update_status_absent k st rows :
  query_first k rows = None -> update_status k st rows = rows.
Proof.
  intros H. unfold update_status. rewrite <- (map_id rows) at 2.
  apply map_ext_in. intros r Hr.
  rewrite bool_decide_eq_false_2; [reflexivity|].
  exact (proj1 (query_first_None k rows) H r Hr).
Qed.

End Table.

(** ** Running a handler symbolically *)

Ltac exec_step :=
  cbv beta iota zeta delta
    [mbind M_bind mret M_ret try_finally try_except raise emit print lift
     get_frame set_world set_db set_doc SessionLocal SessionLocal_
     db_query_first db_commit db_rollback db_close db_add db_refresh
     doc_set_status boto3_client get_object upload_fileobj delay get_db enter
     world db doc new dirty inserted is_active closed
     worker process_document run_upload upload_document lookup_request
     get_document_status status_endpoint];
  cbn [app fold_left flush_new flush_dirty fst snd id with_status
       table id_seq now bucket broker set_table set_bucket set_broker].

Ltac exec := repeat progress exec_step.

Lemma set_table_same (w : World) : set_table (table w) (id_seq w) w = w.
Proof. destruct w; reflexivity. Qed.

(** ** The worker: the three ways a run can go *)

Section Worker.

Variables (env : Env) (document_id : Z) (w : World).

Lemma worker_missing :
  query_first document_id (table w) = None ->
  worker env document_id w =
    (Val tt, w, released,
     [Print ("Document with ID " +:+ pretty document_id +:+ " not found.");
      DbCommit (table w);
      DbClose;
      Print ("Database session closed for document " +:+ pretty document_id +:+ ".")]).
Proof.
  intros H. exec. rewrite H. exec. rewrite set_table_same. reflexivity.
Qed.

Lemma worker_processed (d : Document) (content : list Byte.byte) :
  query_first document_id (table w) = Some d ->
  fetch env w (filename d) = Val content ->
  worker env document_id w =
    (Val tt,
     set_table (update_status document_id PROCESSED (table w)) (id_seq w) w,
     released,
     [DbCommit (update_status document_id PROCESSING (table w));
      Print ("Processing document: " +:+ filename d +:+ " (ID: " +:+ pretty (id d) +:+ ")");
      GetObject (filename d) true;
      Print ("--- Extracted content from " +:+ filename d +:+ ", "
             +:+ pretty (Z.of_nat (length content)) +:+ " bytes ---");
      Print ("Finished processing document: " +:+ filename d);
      DbCommit (update_status document_id PROCESSED (table w));
      DbClose;
      Print ("Database session closed for document " +:+ pretty document_id +:+ ".")]).
Proof.
  intros H. destruct (query_first_Some _ _ _ H) as [Hid _].
  unfold fetch. exec. rewrite H. exec.
  destruct (client_fault env); exec; [discriminate|].
  destruct (get_fault env); exec; [discriminate|].
  destruct (bucket w !! filename d); exec; [|discriminate].
  intros [= ->]. rewrite Hid, update_status_twice. reflexivity.
Qed.

Lemma worker_failed (d : Document) (e : Exn) :
  query_first document_id (table w) = Some d ->
  fetch env w (filename d) = Exc e ->
  exists tried,
    (tried = [] \/ tried = [GetObject (filename d) false]) /\
    worker env document_id w =
      (Val tt,
       set_table (update_status document_id FAILED (table w)) (id_seq w) w,
       released,
       [DbCommit (update_status document_id PROCESSING (table w));
        Print ("Processing document: " +:+ filename d +:+ " (ID: " +:+ pretty (id d) +:+ ")")]
       ++ tried ++
       [Print ("Failed to process document " +:+ pretty document_id
               +:+ ". Error: " +:+ str e);
        DbRollback;
        DbCommit (update_status document_id FAILED (table w));
        DbClose;
        Print ("Database session closed for document " +:+ pretty document_id +:+ ".")]).
Proof.
  intros H. destruct (query_first_Some _ _ _ H) as [Hid _].
  unfold fetch. exec. rewrite H. exec.
  destruct (client_fault env); exec.
  { intros [= <-]. exists []. split; [auto|].
    rewrite Hid, update_status_twice. reflexivity. }
  destruct (get_fault env); exec.
  { intros [= <-]. exists [GetObject (filename d) false]. split; [auto|].
    rewrite Hid, update_status_twice. reflexivity. }
  destruct (bucket w !! filename d); exec; [discriminate|].
  intros [= <-]. exists [GetObject (filename d) false]. split; [auto|].
  rewrite Hid, update_status_twice. reflexivity.
Qed.

End Worker.

(** ** The upload: the ways a run can go *)

Lemma query_first_app_fresh (k : Z) (rows : list Document) (row : Document) :
  (forall x, In x rows -> id x <> k) -> id row = k ->
  query_first k (rows ++ [row]) = Some row.
Proof.
  intros Hfresh Hk. unfold query_first. induction rows as [|r rows IH]; simpl.
  - rewrite bool_decide_eq_true_2 by exact Hk. reflexivity.
  - rewrite bool_decide_eq_false_2 by (apply Hfresh; left; reflexivity).
    apply IH. intros x Hx. apply Hfresh. right. exact Hx.
Qed.

Lemma query_first_app_new (k : Z) (rows : list Document) (row : Document) :
  id row = k -> exists d, query_first k (rows ++ [row]) = Some d.
Proof.
  intros Hk. destruct (query_first k (rows ++ [row])) as [d|] eqn:E; [eauto|].
  exfalso. apply (proj1 (query_first_None _ _) E row); [|exact Hk].
  apply in_or_app. right. left. reflexivity.
Qed.

Lemma run_upload_cases (ns : Namespace) (env : Env) (f : UploadFile) (w : World) :
  UploadRun env f w (run_upload ns env f w).
Proof.
  destruct (query_first_app_new (id_seq w) (table w) (inserted_row f w) eq_refl)
    as [d Hd].
  exec. destruct ns as [request|]; exec; [|constructor].
  destruct (truthy (headers request !! "content-length")) as [v|]; exec; [|constructor].
  destruct (int v) as [file_size|]; exec; [|constructor].
  case_bool_decide; exec; [constructor|].
  destruct (client_fault env); exec; [constructor|].
  destruct (put_fault env) as [e|] eqn:Eput; exec.
  { apply upload_write_failed; assumption. }
  fold (inserted_row f w). rewrite Hd. exec.
  destruct (enqueue_fault env) as [e|] eqn:Eq; exec.
  - apply (upload_enqueue_failed env f w e d); assumption.
  - apply (upload_queued env f w d); assumption.
Qed.

(** * The Status Handler *)

Lemma status_endpoint_run (document_id : Z) (w : World) :
  status_endpoint document_id w =
    (match query_first document_id (table w) with
     | Some d => found d
     | None => not_found
     end, w, [DbClose]).
Proof.
  exec. destruct (query_first document_id (table w)); reflexivity.
Qed.

(** C9.  GET /status/{document_id} answers 200 with the stored record (all
    five fields, the status as it is now) when the table has a row with
    that id, which under the primary key is that very row, and 404 with
    detail "Document not found" when it has none.  Either way the world is
    left as it was and nothing is committed. *)
Theorem status_handler_returns_stored_record
    (document_id : Z) (w : World) (resp : Response) (w' : World) (t : list Event) :
  status_endpoint document_id w = (resp, w', t) ->
  w' = w /\ t = [DbClose] /\
  (forall d, primary_key (table w) -> In d (table w) -> id d = document_id ->
     resp = found d) /\
  ((exists d, In d (table w) /\ id d = document_id) ->
     exists d, In d (table w) /\ id d = document_id /\ resp = found d) /\
  ((forall d, In d (table w) -> id d <> document_id) -> resp = not_found).
Proof.
  rewrite status_endpoint_run. intros [= <- <- <-].
  split; [reflexivity|]. split; [reflexivity|]. split; [|split].
  - intros d Hpk Hin Hid. rewrite (query_first_unique _ _ _ Hpk Hin Hid). reflexivity.
  - intros [d [Hin Hid]].
    destruct (query_first document_id (table w)) as [d'|] eqn:E.
    + destruct (query_first_Some _ _ _ E). exists d'. auto.
    + exfalso. exact (proj1 (query_first_None _ _) E d Hin Hid).
  - intros Hnone. rewrite (proj2 (query_first_None _ _) Hnone). reflexivity.
Qed.

Lemma status_handler_returns_stored_record_witness :
  status_endpoint 1 (world1 PROCESSING)
    = (found (doc1 PROCESSING), world1 PROCESSING, [DbClose]) /\
  status_endpoint 99999 (world1 PROCESSING)
    = (not_found, world1 PROCESSING, [DbClose]).
Proof.
  split.
  - destruct (status_endpoint 1 (world1 PROCESSING)) as [[resp w'] t] eqn:E.
    destruct (status_handler_returns_stored_record _ _ _ _ _ E)
      as (-> & -> & Hrow & _).
    rewrite (Hrow (doc1 PROCESSING)); [reflexivity| |left; reflexivity|reflexivity].
    unfold primary_key. simpl. apply NoDup_singleton.
  - destruct (status_endpoint 99999 (world1 PROCESSING)) as [[resp w'] t] eqn:E.
    destruct (status_handler_returns_stored_record _ _ _ _ _ E)
      as (-> & -> & _ & _ & Hnone).
    rewrite Hnone; [reflexivity|].
    intros d [<-|[]]. simpl. lia.
Defined.

(** * The Processing Worker *)

(** C8.  When no row has the identifier, the task prints that the document
    was not found and returns normally; the world is what it was, so no
    status was set and no row created, and the session is closed. *)
Theorem worker_unknown_id (env : Env) (document_id : Z) (w : World) :
  (forall d, In d (table w) -> id d <> document_id) ->
  exists t,
    worker env document_id w = (Val tt, w, released, t) /\
    In (Print ("Document with ID " +:+ pretty document_id +:+ " not found.")) t /\
    history document_id t = [] /\
    (forall rows, In rows (commits t) -> rows = table w).
Proof.
  intros Hnone. apply query_first_None in Hnone.
  eexists. split; [apply worker_missing; exact Hnone|].
  split; [left; reflexivity|].
  unfold history, commits. cbn [omap list_omap]. rewrite Hnone.
  split; [reflexivity|]. intros rows [<-|[]]. reflexivity.
Qed.

Lemma worker_unknown_id_witness :
  exists t, worker healthy 7 (world1 QUEUED) = (Val tt, world1 QUEUED, released, t).
Proof.
  destruct (worker_unknown_id healthy 7 (world1 QUEUED)) as (t & Hrun & _).
  - intros d [<-|[]]. simpl. lia.
  - exists t. exact Hrun.
Defined.

(** C4.  When the row is found, the task returns normally with the session
    closed, and the last commit is the table it leaves.  If building the
    client and reading the object raise nothing, the row is committed as
    PROCESSED and nothing is rolled back.  If they raise, the session is
    rolled back, and the one commit after the rollback leaves the row
    FAILED. *)
Theorem worker_final_status (env : Env) (document_id : Z) (w : World) (d : Document) :
  query_first document_id (table w) = Some d ->
  exists w' t,
    worker env document_id w = (Val tt, w', released, t) /\
    closed released = true /\ In DbClose t /\
    last (commits t) = Some (table w') /\
    match fetch env w (filename d) with
    | Val _ =>
        query_first document_id (table w') = Some (with_status PROCESSED d) /\
        ~ In DbRollback t
    | Exc _ =>
        query_first document_id (table w') = Some (with_status FAILED d) /\
        exists t1 t2, t = t1 ++ DbRollback :: t2 /\ commits t2 = [table w']
    end.
Proof.
  intros H. destruct (fetch env w (filename d)) as [content|e] eqn:F.
  - do 2 eexists. split; [apply (worker_processed _ _ _ _ _ H F)|].
    split; [reflexivity|]. split; [simpl; tauto|]. split; [reflexivity|].
    split.
    + cbn [table set_table]. rewrite query_first_update, H. reflexivity.
    + simpl. intros Hin. repeat destruct Hin as [Hin|Hin]; try discriminate Hin.
      exact Hin.
  - destruct (worker_failed _ _ _ _ _ H F) as (tried & Htried & Hrun).
    do 2 eexists. split; [exact Hrun|].
    split; [reflexivity|].
    split; [destruct Htried as [-> | ->]; simpl; tauto|].
    split; [destruct Htried as [-> | ->]; reflexivity|].
    split.
    + cbn [table set_table]. rewrite query_first_update, H. reflexivity.
    + destruct Htried as [-> | ->].
      * eexists [_; _; _], _. split; reflexivity.
      * eexists [_; _; _; _], _. split; reflexivity.
Qed.

Lemma worker_final_status_witness :
  (exists w' t, worker healthy 1 (world1 QUEUED) = (Val tt, w', released, t) /\
     query_first 1 (table w') = Some (doc1 PROCESSED)) /\
  (exists w' t, worker store_down 1 (world1 QUEUED) = (Val tt, w', released, t) /\
     query_first 1 (table w') = Some (doc1 FAILED)).
Proof.
  split.
  - destruct (worker_final_status healthy 1 (world1 QUEUED) (doc1 QUEUED) eq_refl)
      as (w' & t & Hrun & _ & _ & _ & Hfin).
    exists w', t. split; [exact Hrun|].
    change (fetch healthy (world1 QUEUED) (filename (doc1 QUEUED)))
      with (@Val (list Byte.byte) ten_bytes) in Hfin.
    exact (proj1 Hfin).
  - destruct (worker_final_status store_down 1 (world1 QUEUED) (doc1 QUEUED) eq_refl)
      as (w' & t & Hrun & _ & _ & _ & Hfin).
    exists w', t. split; [exact Hrun|].
    change (fetch store_down (world1 QUEUED) (filename (doc1 QUEUED)))
      with (@Exc (list Byte.byte) (thrown unreachable)) in Hfin.
    exact (proj1 Hfin).
Defined.

(** * The life cycle of a status *)

(** A second run of the task for document 1, already PROCESSED, while the
    object store is down: the row goes to PROCESSING and ends FAILED. *)
Example rerun_of_processed :
  exists w' t,
    worker store_down 1 (world1 PROCESSED) = (Val tt, w', released, t) /\
    history 1 t = [PROCESSING; FAILED] /\
    query_first 1 (table w') = Some (doc1 FAILED).
Proof.
  destruct (worker store_down 1 (world1 PROCESSED)) as [[[r w'] s] t] eqn:E.
  vm_compute in E. injection E as <- <- <- <-.
  do 2 eexists. split; [reflexivity|]. split; vm_compute; reflexivity.
Qed.

(** C1, as stated, fails: a further invocation of the worker for the same
    identifier overwrites a terminal status. *)
Lemma terminal_is_not_final : ~ terminal_is_final.
Proof.
  intros H.
  specialize (H store_down 1 (world1 PROCESSED) (doc1 PROCESSED) eq_refl eq_refl).
  vm_compute in H. discriminate H.
Qed.

Lemma run_upload_table (ns : Namespace) (env : Env) (f : UploadFile) (w : World) :
  let w' := snd (fst (run_upload ns env f w)) in
  table w' = table w \/ table w' = table w ++ [inserted_row f w].
Proof.
  destruct (run_upload_cases ns env f w); simpl; auto.
Qed.

(** C1, amended.  A row is created with status QUEUED by an upload, which
    leaves every row already there as it is; the Status Handler changes
    nothing.  An invocation of the worker leaves the rows with other
    identifiers alone and, when it finds its row, commits it as PROCESSING
    and then as PROCESSED or FAILED, whatever the status was before, so a
    further invocation for the same identifier takes a terminal row
    through PROCESSING to a terminal status again.  When it finds no row
    the table is unchanged. *)
Theorem status_life_cycle (w : World) :
  (forall ns env f,
     exists added,
       table (snd (fst (run_upload ns env f w))) = table w ++ added /\
       forall d, In d added -> status d = QUEUED) /\
  (forall document_id, snd (fst (status_endpoint document_id w)) = w) /\
  (forall env document_id d,
     query_first document_id (table w) = Some d ->
     exists st t,
       snd (worker env document_id w) = t /\
       terminal st = true /\
       history document_id t = [PROCESSING; st] /\
       query_first document_id (table_after env document_id w) = Some (with_status st d) /\
       forall d', In d' (table w) -> id d' <> document_id ->
                  In d' (table_after env document_id w)) /\
  (forall env document_id,
     query_first document_id (table w) = None ->
     table_after env document_id w = table w).
Proof.
  split; [|split; [|split]].
  - intros ns env f. destruct (run_upload_table ns env f w) as [E|E].
    + exists []. rewrite E, app_nil_r. split; [reflexivity|]. intros d [].
    + exists [inserted_row f w]. split; [exact E|]. intros d [<-|[]]. reflexivity.
  - intros document_id. rewrite status_endpoint_run. reflexivity.
  - intros env document_id d H. unfold table_after.
    assert (Hup : forall st, status <$> query_first document_id
                    (update_status document_id st (table w)) = Some st).
    { intros st. rewrite query_first_update, H. reflexivity. }
    destruct (fetch env w (filename d)) as [content|e] eqn:F.
    + rewrite (worker_processed _ _ _ _ _ H F). exists PROCESSED. eexists.
      split; [reflexivity|]. split; [reflexivity|]. split; [|split].
      * unfold history, commits. cbn [fst snd omap list_omap]. rewrite !Hup. reflexivity.
      * cbn [fst snd table set_table]. rewrite query_first_update, H. reflexivity.
      * intros d' Hin Hne. cbn [fst snd table set_table].
        apply update_status_other; assumption.
    + destruct (worker_failed _ _ _ _ _ H F) as (tried & Htried & Hrun).
      rewrite Hrun. exists FAILED. eexists.
      split; [reflexivity|]. split; [reflexivity|]. split; [|split].
      * unfold history, commits.
        destruct Htried as [-> | ->]; cbn [fst snd app omap list_omap]; rewrite !Hup;
          reflexivity.
      * cbn [fst snd table set_table]. rewrite query_first_update, H. reflexivity.
      * intros d' Hin Hne. cbn [fst snd table set_table].
        apply update_status_other; assumption.
  - intros env document_id H. unfold table_after.
    rewrite (worker_missing _ _ _ H). reflexivity.
Qed.

Lemma status_life_cycle_witness :
  exists st t,
    snd (worker healthy 1 (world1 FAILED)) = t /\
    terminal st = true /\
    history 1 t = [PROCESSING; st] /\
    query_first 1 (table_after healthy 1 (world1 FAILED)) = Some (doc1 st).
Proof.
  destruct (status_life_cycle (world1 FAILED)) as (_ & _ & Hworker & _).
  destruct (Hworker healthy 1 (doc1 FAILED) eq_refl) as (st & t & Ht & Hst & Hh & Hq & _).
  exists st, t. repeat split; assumption.
Defined.

(** * The Upload Handler *)

Lemma app_one_neq {A} (l : list A) (x : A) : l <> l ++ [x].
Proof.
  intros H. apply (f_equal (@List.length A)) in H.
  rewrite length_app in H. simpl in H. lia.
Qed.

Ltac upload_cases H :=
  match type of H with
  | run_upload ?ns ?env ?f ?w = _ =>
      let Hc := fresh "Hc" in
      pose proof (run_upload_cases ns env f w) as Hc;
      rewrite H in Hc; inversion Hc; subst; clear Hc
  end.

Ltac not_in :=
  let Hin := fresh "Hin" in
  simpl; intros Hin; repeat destruct Hin as [Hin|Hin]; try discriminate Hin;
  contradiction.

(** The body of the handler, whatever [request] resolves to.  A run that
    returns its document has had exactly these effects, in this order: the object written under the file's name, the commit
    that makes the new row visible, the job enqueued with the identifier
    of the returned row, the session closed.  That identifier is the one
    the INSERT assigned, and the returned row is the inserted one when the
    sequence is ahead of the table.  For every run, the table gained the
    row of this upload if and only if the write of the object succeeded,
    and is otherwise what it was. *)
Theorem upload_effects_in_order
    (ns : Namespace) (env : Env) (f : UploadFile) (w : World)
    (r : Res Document) (w' : World) (t : list Event) :
  run_upload ns env f w = (r, w', t) ->
  (forall d, r = Val d ->
     effects t = [PutObject (file_name f) true;
                  DbCommit (table w');
                  Enqueue "process_document" (id d) true;
                  DbClose] /\
     In d (table w') /\
     id d = id (inserted_row f w) /\
     ((forall x, In x (table w) -> id x <> id_seq w) -> d = inserted_row f w) /\
     bucket w' !! file_name f = Some (file f) /\
     broker w' = broker w ++ [id d]) /\
  (In (PutObject (file_name f) true) t <-> table w' = table w ++ [inserted_row f w]) /\
  (~ In (PutObject (file_name f) true) t -> table w' = table w).
Proof.
  intros H. upload_cases H.
  - split; [intros d [=]|]. split; [|reflexivity].
    split; [not_in|]. intros E. destruct (app_one_neq _ _ E).
  - split; [intros d [=]|]. split; [|reflexivity].
    split; [not_in|]. intros E. destruct (app_one_neq _ _ E).
  - split; [intros d' [=]|]. split.
    + split; [reflexivity|]. intros _. left. reflexivity.
    + intros Hn. destruct Hn. left. reflexivity.
  - split.
    + intros d' [= <-].
      match goal with
      | Hq : query_first _ _ = Some _ |- _ =>
          destruct (query_first_Some _ _ _ Hq) as [Hid Hin]; rename Hq into Hrow
      end.
      split; [reflexivity|]. split; [exact Hin|]. split; [exact Hid|].
      split.
      { intros Hfresh. cbn [table stored set_table] in Hrow.
        rewrite query_first_app_fresh in Hrow by (exact Hfresh || reflexivity).
        injection Hrow as <-. reflexivity. }
      split; [|reflexivity].
      cbn [bucket set_broker stored set_table set_bucket]. apply lookup_insert_eq.
    + split.
      * split; [reflexivity|]. intros _. left. reflexivity.
      * intros Hn. destruct Hn. left. reflexivity.
Qed.

Lemma upload_effects_in_order_witness :
  exists d w' t,
    run_upload (Some (with_length "10")) healthy a_txt empty_world = (Val d, w', t) /\
    effects t = [PutObject "a.txt" true; DbCommit (table w');
                 Enqueue "process_document" (id d) true; DbClose] /\
    table w' = [d] /\ status d = QUEUED.
Proof.
  destruct (run_upload (Some (with_length "10")) healthy a_txt empty_world)
    as [[r w'] t] eqn:E.
  destruct (upload_effects_in_order _ _ _ _ _ _ _ E) as (Hok & _ & _).
  assert (Hr : r = Val (inserted_row a_txt empty_world)).
  { vm_compute in E. injection E as <- _ _. reflexivity. }
  destruct (Hok _ Hr) as (Heff & _).
  exists (inserted_row a_txt empty_world), w', t. rewrite <- Hr.
  split; [reflexivity|]. split; [exact Heff|].
  vm_compute in E. injection E as _ <- _. split; reflexivity.
Defined.

(** The body of the handler, whatever [request] resolves to.  A run in
    which the write of the object fails answers 500 with the message of the
    error in its detail, and the world is what it was: no row, no job,
    nothing committed. *)
Theorem upload_write_failure_is_atomic
    (ns : Namespace) (env : Env) (f : UploadFile) (w : World)
    (r : Res Document) (w' : World) (t : list Event) :
  run_upload ns env f w = (r, w', t) ->
  In (PutObject (file_name f) false) t ->
  exists e,
    put_fault env = Some e /\
    respond r =
      {| status_code_ := 500;
         body := JsonDetail ("An unexpected error occurred during upload: "
                             +:+ str (thrown e)) |} /\
    w' = w /\
    commits t = [] /\
    (forall k ok, ~ In (Enqueue "process_document" k ok) t).
Proof.
  intros H Hput. upload_cases H.
  - exfalso. revert Hput. not_in.
  - exists e. split; [assumption|]. split; [reflexivity|]. split; [reflexivity|].
    split; [reflexivity|]. intros k ok. not_in.
  - exfalso. revert Hput. not_in.
  - exfalso. revert Hput. not_in.
Qed.

Lemma upload_write_failure_is_atomic_witness :
  exists r t,
    run_upload (Some (with_length "10")) store_down a_txt empty_world
      = (r, empty_world, t) /\
    respond r =
      {| status_code_ := 500;
         body := JsonDetail ("An unexpected error occurred during upload: "
                             +:+ "Could not connect to the endpoint URL") |}.
Proof.
  destruct (run_upload (Some (with_length "10")) store_down a_txt empty_world)
    as [[r w'] t] eqn:E.
  destruct (upload_write_failure_is_atomic _ _ _ _ _ _ _ E) as (e & He & Hr & -> & _).
  - vm_compute in E. injection E as _ _ <-. left. reflexivity.
  - exists r, t. split; [reflexivity|].
    injection He as <-. exact Hr.
Defined.

(** The body of the handler, whatever [request] resolves to.  A run in
    which the call that enqueues the job raises has already committed the
    row: the exception of the broker leaves the handler (the client
    gets the server's 500, not the document), the table has the new row
    with status QUEUED, and the broker holds no job for it. *)
Theorem upload_enqueue_failure_leaves_row
    (ns : Namespace) (env : Env) (f : UploadFile) (w : World)
    (r : Res Document) (w' : World) (t : list Event) (k : Z) :
  run_upload ns env f w = (r, w', t) ->
  In (Enqueue "process_document" k false) t ->
  exists e,
    enqueue_fault env = Some e /\
    r = Exc (thrown e) /\
    respond r = {| status_code_ := 500; body := PlainText "Internal Server Error" |} /\
    table w' = table w ++ [inserted_row f w] /\
    status (inserted_row f w) = QUEUED /\
    broker w' = broker w /\
    effects t = [PutObject (file_name f) true;
                 DbCommit (table w');
                 Enqueue "process_document" k false;
                 DbClose].
Proof.
  intros H Henq. upload_cases H.
  - exfalso. revert Henq. not_in.
  - exfalso. revert Henq. not_in.
  - exists e. split; [assumption|]. split; [reflexivity|].
    split; [destruct e; reflexivity|]. split; [reflexivity|].
    split; [reflexivity|]. split; [reflexivity|].
    simpl in Henq. repeat destruct Henq as [Henq|Henq]; try discriminate Henq.
    + injection Henq as <-. reflexivity.
    + destruct Henq.
  - exfalso. revert Henq. not_in.
Qed.

Lemma upload_enqueue_failure_leaves_row_witness :
  exists r w' t,
    run_upload (Some (with_length "10")) broker_down a_txt empty_world = (r, w', t) /\
    status_code_ (respond r) = 500 /\
    table w' = [inserted_row a_txt empty_world] /\
    broker w' = [].
Proof.
  destruct (run_upload (Some (with_length "10")) broker_down a_txt empty_world)
    as [[r w'] t] eqn:E.
  destruct (upload_enqueue_failure_leaves_row _ _ _ _ _ _ _ 1 E)
    as (e & _ & _ & Hr & Htab & _ & Hbr & _).
  - vm_compute in E. injection E as _ _ <-. do 3 right. left. reflexivity.
  - exists r, w', t. split; [reflexivity|]. rewrite Hr, Htab, Hbr.
    split; [reflexivity|]. split; reflexivity.
Defined.

(** ** The check of Content-Length *)

(** The quotients of [MAX_FILE_SIZE / 1024 / 1024] are exact, so the float
    Python computes is the integer 25 and prints as 25.0. *)
Lemma MAX_FILE_SIZE_exact :
  MAX_FILE_SIZE mod 1024 = 0 /\ (MAX_FILE_SIZE / 1024) mod 1024 = 0 /\
  MAX_FILE_SIZE / 1024 / 1024 = 25.
Proof. repeat split. Qed.

Lemma too_large_detail :
  too_large = HTTPException 413 "File is too large. Limit is 25.0 MB.".
Proof. reflexivity. Qed.

(** The body of the handler, were [request] bound to the incoming request:
    no usable Content-Length gives 411 before anything is written. *)
Lemma body_requires_length (req : Request) (env : Env) (f : UploadFile) (w : World) :
  truthy (headers req !! "content-length") = None ->
  run_upload (Some req) env f w =
    (Exc (HTTPException 411 "Content-Length header required."), w, [DbClose]).
Proof. intros H. exec. rewrite H. reflexivity. Qed.

(** The body of the handler, were [request] bound: a declared size above
    the limit gives 413 before anything is written. *)
Lemma body_rejects_oversized
    (req : Request) (env : Env) (f : UploadFile) (w : World) (v : string) (n : Z) :
  truthy (headers req !! "content-length") = Some v ->
  int v = Val n ->
  n > MAX_FILE_SIZE ->
  run_upload (Some req) env f w = (Exc too_large, w, [DbClose]).
Proof.
  intros H Hn Hgt. exec. rewrite H. exec. rewrite Hn. exec.
  rewrite bool_decide_eq_true_2 by exact Hgt. reflexivity.
Qed.

(** With the module as it is, [request] resolves to nothing and every
    upload ends in [NameError] before the headers are looked at. *)
Lemma upload_endpoint_run (env : Env) (incoming : Request) (f : UploadFile) (w : World) :
  upload_endpoint env incoming f w = (server_error, w, [DbClose]).
Proof. reflexivity. Qed.

(** C2.  An upload without Content-Length writes nothing to the object
    store, but the answer is the server's 500 and not 411: the lookup of
    [request] raises before the header is read. *)
Theorem upload_without_length (env : Env) (f : UploadFile) (w : World) :
  headers no_length !! "content-length" = None /\
  upload_endpoint env no_length f w = (server_error, w, [DbClose]) /\
  status_code_ server_error <> 411.
Proof.
  split; [reflexivity|]. split; [apply upload_endpoint_run|]. discriminate.
Qed.

(** C7.  An upload declaring 300000000 bytes creates no row, but the answer
    is the server's 500 and not 413 with the limit in its detail: the
    lookup of [request] raises before the size is compared. *)
Theorem upload_oversized (env : Env) (f : UploadFile) (w : World) :
  int "300000000" = Val 300000000 /\
  300000000 > MAX_FILE_SIZE /\
  upload_endpoint env (with_length "300000000") f w = (server_error, w, [DbClose]) /\
  status_code_ server_error <> 413.
Proof.
  split; [reflexivity|]. split; [reflexivity|].
  split; [apply upload_endpoint_run|]. discriminate.
Qed.

(** * Start-up *)

Lemma on_exception_sleeps (cfg : Config) (a : Attempt) (i : nat)
    (mc : option Client) (e : Exn) (fl : Flow) (t : list Event) :
  on_exception cfg a i mc e = (fl, t) ->
  (fl = Continue /\ sleeps t = [delay_secs]) \/ (fl <> Continue /\ sleeps t = []).
Proof.
  unfold on_exception. intros H.
  destruct e; try (injection H as <- <-; left; split; reflexivity).
  destruct (bool_decide (code = "404")).
  - destruct mc; [destruct (create_bucket a)|];
      injection H as <- <-; right; split; (discriminate || reflexivity).
  - injection H as <- <-. left. split; reflexivity.
Qed.

Lemma attempt_sleeps (cfg : Config) (a : Attempt) (i : nat)
    (mc mc' : option Client) (fl : Flow) (t : list Event) :
  attempt cfg a i mc = (fl, mc', t) ->
  (fl = Continue /\ sleeps t = [delay_secs]) \/ (fl <> Continue /\ sleeps t = []).
Proof.
  unfold attempt. intros H. destruct (client_raises a).
  - destruct (on_exception cfg a i mc (thrown f)) as [fl' t'] eqn:E.
    injection H as <- _ <-. exact (on_exception_sleeps _ _ _ _ _ _ _ E).
  - destruct (head_bucket a).
    + destruct (on_exception cfg a i (Some S3Client) (thrown f)) as [fl' t'] eqn:E.
      injection H as <- _ <-. exact (on_exception_sleeps _ _ _ _ _ _ _ E).
    + injection H as <- _ <-. right. split; (discriminate || reflexivity).
Qed.

Lemma sleeps_app (t1 t2 : list Event) : sleeps (t1 ++ t2) = sleeps t1 ++ sleeps t2.
Proof.
  unfold sleeps. apply omap_app.
Qed.

(** The loop is bounded and its delay fixed: at most [n] sleeps, each of
    [delay_secs]. *)
Lemma connect_bounded (cfg : Config) (store : nat -> Attempt) (n : nat) :
  forall i mc r t,
    connect cfg store n i mc = (r, t) ->
    exists m, (m <= n)%nat /\ sleeps t = replicate m delay_secs.
Proof.
  induction n as [|n IH]; simpl; intros i mc r t H.
  - injection H as _ <-. exists 0%nat. split; [lia|reflexivity].
  - destruct (attempt cfg (store i) i mc) as [[fl mc'] t0] eqn:E.
    destruct (attempt_sleeps _ _ _ _ _ _ _ E) as [[-> Hs]|[Hfl Hs]].
    + destruct (connect cfg store n (S i) mc') as [r' t'] eqn:E'.
      injection H as _ <-. destruct (IH _ _ _ _ E') as (m & Hm & Hm').
      exists (S m). split; [lia|]. rewrite sleeps_app, Hs, Hm'. reflexivity.
    + exists 0%nat. split; [lia|].
      destruct fl; [| destruct (Hfl eq_refl) |]; injection H as _ <-; exact Hs.
Qed.

(** X14.  Start-up pauses at most [retries] times, five, and every pause
    is of [delay_secs], two seconds, whatever the object store does. *)
Lemma lifespan_bounded (cfg : Config) (store : nat -> Attempt) :
  exists m, (m <= retries)%nat /\ sleeps (snd (lifespan cfg store)) = replicate m delay_secs.
Proof.
  unfold lifespan.
  destruct (connect cfg store retries 0 None) as [r t] eqn:E.
  destruct (connect_bounded _ _ _ _ _ _ _ E) as (m & Hm & Hs).
  exists m. split; [exact Hm|].
  destruct r as [[c|]|e]; cbn [snd]; rewrite sleeps_app; exact Hs.
Qed.

(** Once [minio_client] is assigned the loop never clears it. *)
Lemma connect_keeps_client (cfg : Config) (store : nat -> Attempt) (n : nat) :
  forall i c mc t,
    connect cfg store n i (Some c) = (Val mc, t) -> mc <> None.
Proof.
  induction n as [|n IH]; simpl; intros i c mc t H.
  - injection H as <- _. discriminate.
  - unfold attempt in H.
    destruct (client_raises (store i)).
    + destruct (on_exception cfg (store i) i (Some c) (thrown f)) as [[] t0].
      * injection H as <- _. discriminate.
      * destruct (connect cfg store n (S i) (Some c)) as [r' t'] eqn:E'.
        injection H as -> _. exact (IH _ _ _ _ E').
      * discriminate H.
    + destruct (head_bucket (store i)).
      * destruct (on_exception cfg (store i) i (Some S3Client) (thrown f)) as [[] t0].
        -- injection H as <- _. discriminate.
        -- destruct (connect cfg store n (S i) (Some S3Client)) as [r' t'] eqn:E'.
           injection H as -> _. exact (IH _ _ _ _ E').
        -- discriminate H.
      * injection H as <- _. discriminate.
Qed.

Lemma attempt_unreachable (cfg : Config) (a : Attempt) (i : nat)
    (mc : option Client) (m : string) :
  client_raises a = None ->
  head_bucket a = Some (Failure m) ->
  exists t, attempt cfg a i mc = (Continue, Some S3Client, t).
Proof.
  intros Hc Hh. unfold attempt. rewrite Hc, Hh. eexists. reflexivity.
Qed.

Lemma connect_unreachable (cfg : Config) (store : nat -> Attempt) :
  (forall i, client_raises (store i) = None /\
             exists m, head_bucket (store i) = Some (Failure m)) ->
  forall n i mc, exists t, connect cfg store (S n) i mc = (Val (Some S3Client), t).
Proof.
  intros H. induction n as [|n IH]; intros i mc.
  - destruct (H i) as [Hc [m Hh]].
    destruct (attempt_unreachable cfg (store i) i mc m Hc Hh) as [t E].
    cbn [connect]. rewrite E. eexists. reflexivity.
  - destruct (H i) as [Hc [m Hh]].
    destruct (attempt_unreachable cfg (store i) i mc m Hc Hh) as [t E].
    destruct (IH (S i) (Some S3Client)) as [t' E'].
    change (connect cfg store (S (S n)) i mc)
      with (match attempt cfg (store i) i mc with
            | (Break, c, t0) => (Val c, t0)
            | (Propagate e, _, t0) => (Exc e, t0)
            | (Continue, c, t0) =>
                let '(r, t1) := connect cfg store (S n) (S i) c in (r, t0 ++ t1)
            end).
    rewrite E, E'. eexists. reflexivity.
Qed.

(** X15.  Whenever the store stays out of reach (the client is built, and
    [head_bucket] raises something other than a [ClientError] at every
    pass) start-up goes on to serve. *)
Lemma lifespan_serves_unverified (cfg : Config) (store : nat -> Attempt) :
  (forall i, client_raises (store i) = None /\
             exists m, head_bucket (store i) = Some (Failure m)) ->
  fst (lifespan cfg store) = Val tt.
Proof.
  intros H. unfold lifespan, retries.
  destruct (connect_unreachable cfg store H 4%nat 0%nat None) as [t E].
  rewrite E. reflexivity.
Qed.

(** C3.  With the object store out of reach at every pass, [lifespan] makes
    its five attempts, sleeps two seconds after each, and then reaches
    [yield]: the application serves without a verified connection.  The
    test [minio_client is None] does not see the failures, because the
    client was assigned before [head_bucket] raised. *)
Theorem lifespan_store_unreachable :
  exists t,
    lifespan default_config store_unreachable = (Val tt, t) /\
    sleeps t = [2; 2; 2; 2; 2] /\
    fst (lifespan default_config store_unreachable)
      <> Exc (RuntimeError "Could not connect to MinIO after several retries.").
Proof.
  eexists. split; [reflexivity|]. split; [reflexivity|]. discriminate.
Qed.

(** * More on the worker *)

Lemma fetch_bucket (env : Env) (w1 w2 : World) (key : string) :
  bucket w1 = bucket w2 -> fetch env w1 key = fetch env w2 key.
Proof.
  intros Hb. unfold fetch. exec.
  destruct (client_fault env); exec; [reflexivity|].
  destruct (get_fault env); exec; [reflexivity|].
  rewrite Hb. destruct (bucket w2 !! key); reflexivity.
Qed.

Lemma world_after_missing (env : Env) (k : Z) (w : World) :
  query_first k (table w) = None -> world_after env k w = w.
Proof. intros H. unfold world_after. rewrite (worker_missing _ _ _ H). reflexivity. Qed.

Lemma world_after_found (env : Env) (k : Z) (w : World) (d : Document) :
  query_first k (table w) = Some d ->
  world_after env k w =
    set_table (update_status k (outcome env w d) (table w)) (id_seq w) w.
Proof.
  intros H. unfold world_after, outcome.
  destruct (fetch env w (filename d)) as [content|e] eqn:F.
  - rewrite (worker_processed _ _ _ _ _ H F). reflexivity.
  - destruct (worker_failed _ _ _ _ _ H F) as (tried & _ & Hrun).
    rewrite Hrun. reflexivity.
Qed.

Lemma core_update_status (k : Z) (st : DocumentStatus) (rows : list Document) :
  List.map core (update_status k st rows) = List.map core rows.
Proof.
  unfold update_status. rewrite map_map. apply map_ext. intros d.
  destruct (bool_decide (id d = k)); reflexivity.
Qed.

Lemma in_update_status (k : Z) (st : DocumentStatus) (rows : list Document) (d' : Document) :
  In d' (update_status k st rows) ->
  exists d, In d rows /\ core d' = core d.
Proof.
  unfold update_status. intros H. apply in_map_iff in H as (d & <- & Hin).
  exists d. split; [exact Hin|]. destruct (bool_decide (id d = k)); reflexivity.
Qed.

(** X1.  The task never raises: whatever the identifier, the table and the
    collaborators do, it returns normally, and the last two things it does
    are closing the session and printing that it did. *)
Theorem worker_never_raises (env : Env) (document_id : Z) (w : World) :
  exists w' t,
    worker env document_id w =
      (Val tt, w', released,
       t ++ [DbClose;
             Print ("Database session closed for document "
                    +:+ pretty document_id +:+ ".")]).
Proof.
  destruct (query_first document_id (table w)) as [d|] eqn:H.
  - destruct (fetch env w (filename d)) as [content|e] eqn:F.
    + rewrite (worker_processed _ _ _ _ _ H F).
      eexists _, [_; _; _; _; _; _]. reflexivity.
    + destruct (worker_failed _ _ _ _ _ H F) as (tried & Htried & Hrun).
      rewrite Hrun. destruct Htried as [-> | ->].
      * eexists _, [_; _; _; _; _]. reflexivity.
      * eexists _, [_; _; _; _; _; _]. reflexivity.
  - rewrite (worker_missing _ _ _ H). eexists _, [_; _]. reflexivity.
Qed.

(** X2.  The task touches nothing but statuses: the bucket, the broker
    queue, the sequence and the clock are what they were, and the rows are
    the same rows in the same order apart from their status. *)
Theorem worker_changes_only_status (env : Env) (document_id : Z) (w : World) :
  bucket (world_after env document_id w) = bucket w /\
  broker (world_after env document_id w) = broker w /\
  id_seq (world_after env document_id w) = id_seq w /\
  now (world_after env document_id w) = now w /\
  List.map core (table (world_after env document_id w)) = List.map core (table w).
Proof.
  destruct (query_first document_id (table w)) as [d|] eqn:H.
  - rewrite (world_after_found _ _ _ _ H). cbn [bucket broker id_seq now table set_table].
    repeat split; try reflexivity. apply core_update_status.
  - rewrite (world_after_missing _ _ _ H). repeat split; reflexivity.
Qed.

(** X3.  Running the task again under the same conditions changes nothing
    more: the world after two runs is the world after one. *)
Theorem worker_idempotent (env : Env) (document_id : Z) (w : World) :
  world_after env document_id (world_after env document_id w)
  = world_after env document_id w.
Proof.
  destruct (query_first document_id (table w)) as [d|] eqn:H.
  - rewrite (world_after_found _ _ _ _ H).
    set (st := outcome env w d).
    assert (H' : query_first document_id
                   (table (set_table (update_status document_id st (table w)) (id_seq w) w))
                 = Some (with_status st d)).
    { cbn [table set_table]. rewrite query_first_update, H. reflexivity. }
    rewrite (world_after_found _ _ _ _ H').
    assert (Hout : outcome env
                     (set_table (update_status document_id st (table w)) (id_seq w) w)
                     (with_status st d) = st).
    { unfold outcome. cbn [filename with_status].
      rewrite (fetch_bucket env _ w (filename d)) by reflexivity. reflexivity. }
    rewrite Hout. cbn [table id_seq set_table].
    rewrite update_status_twice. reflexivity.
  - rewrite !(world_after_missing _ _ _ H). reflexivity.
Qed.

(** X4.  When the row is found and the client can be built, PROCESSING is
    committed before the object is asked for, and the object is asked for
    under the row's [filename]. *)
Theorem worker_commits_before_fetch
    (env : Env) (document_id : Z) (w : World) (d : Document) :
  query_first document_id (table w) = Some d ->
  client_fault env = None ->
  exists ok rest,
    effects (snd (worker env document_id w)) =
      DbCommit (update_status document_id PROCESSING (table w))
      :: GetObject (filename d) ok :: rest /\
    history document_id [DbCommit (update_status document_id PROCESSING (table w))]
      = [PROCESSING].
Proof.
  intros H Hc.
  assert (Hh : history document_id
                 [DbCommit (update_status document_id PROCESSING (table w))]
               = [PROCESSING]).
  { unfold history, commits. cbn [omap list_omap].
    rewrite query_first_update, H. reflexivity. }
  destruct (query_first_Some _ _ _ H) as [<- _].
  exec. rewrite H. exec. rewrite Hc. exec.
  destruct (get_fault env); exec.
  { eexists false, _. split; [reflexivity|exact Hh]. }
  destruct (bucket w !! filename d); exec.
  - eexists true, _. split; [reflexivity|exact Hh].
  - eexists false, _. split; [reflexivity|exact Hh].
Qed.

Lemma worker_commits_before_fetch_witness :
  exists ok rest,
    effects (snd (worker healthy 1 (world1 QUEUED))) =
      DbCommit [doc1 PROCESSING] :: GetObject "a.txt" ok :: rest.
Proof.
  destruct (worker_commits_before_fetch healthy 1 (world1 QUEUED) (doc1 QUEUED)
              eq_refl eq_refl) as (ok & rest & Heff & _).
  exists ok, rest. exact Heff.
Defined.

(** * More on the upload *)

Lemma world_uploaded_cases (ns : Namespace) (env : Env) (f : UploadFile) (w : World) :
  world_uploaded ns env f w = w \/
  world_uploaded ns env f w = stored f w \/
  exists k, world_uploaded ns env f w = set_broker (broker w ++ [k]) (stored f w).
Proof.
  unfold world_uploaded. destruct (run_upload_cases ns env f w); cbn [fst snd]; eauto.
Qed.

Lemma id_update_status (k : Z) (st : DocumentStatus) (rows : list Document) :
  id <$> update_status k st rows = id <$> rows.
Proof.
  unfold update_status. induction rows as [|d rows IH]; [reflexivity|].
  cbn [List.map fmap list_fmap]. f_equal; [|exact IH].
  destruct (bool_decide (id d = k)); reflexivity.
Qed.

Lemma fresh_ids_stored (f : UploadFile) (w : World) :
  fresh_ids w -> fresh_ids (stored f w).
Proof.
  intros [Hpk Hlt]. split.
  - unfold primary_key. cbn [table stored set_table]. rewrite fmap_app.
    apply NoDup_app. split; [exact Hpk|]. split; [|apply NoDup_singleton].
    intros x Hx Hx'. apply list_elem_of_singleton in Hx'. subst x.
    apply list_elem_of_fmap in Hx as (d & Hd & Hin).
    apply list_elem_of_In in Hin. specialize (Hlt d Hin). cbn in Hd. lia.
  - cbn [table id_seq stored set_table]. intros d Hin.
    apply in_app_or in Hin as [Hin|[<-|[]]].
    + specialize (Hlt d Hin). lia.
    + cbn. lia.
Qed.

(** X5.  The primary keys stay unique and behind the sequence through every
    upload, whatever its outcome, and through every run of the worker. *)
Theorem ids_stay_fresh (w : World) :
  fresh_ids w ->
  (forall ns env f, fresh_ids (world_uploaded ns env f w)) /\
  (forall env document_id, fresh_ids (world_after env document_id w)).
Proof.
  intros Hw. split.
  - intros ns env f.
    destruct (world_uploaded_cases ns env f w) as [-> | [-> | [k ->]]].
    + exact Hw.
    + apply fresh_ids_stored, Hw.
    + exact (fresh_ids_stored f w Hw).
  - intros env k. destruct (query_first k (table w)) as [d|] eqn:H.
    + rewrite (world_after_found _ _ _ _ H). destruct Hw as [Hpk Hlt]. split.
      * unfold primary_key. cbn [table set_table]. rewrite id_update_status. exact Hpk.
      * cbn [table id_seq set_table]. intros d' Hin.
        apply in_update_status in Hin as (d0 & Hin & Hcore).
        injection Hcore as -> _ _ _. apply Hlt, Hin.
    + rewrite (world_after_missing _ _ _ H). exact Hw.
Qed.

Lemma ids_stay_fresh_witness :
  fresh_ids (world_uploaded (Some (with_length "10")) healthy a_txt empty_world).
Proof.
  apply (ids_stay_fresh empty_world).
  split; [apply NoDup_nil_2|]. intros d [].
Defined.

Lemma rows_have_objects_stored (f : UploadFile) (w : World) :
  rows_have_objects w -> rows_have_objects (stored f w).
Proof.
  intros Hw d Hin. cbn [table bucket stored set_table set_bucket] in *.
  apply in_app_or in Hin as [Hin|[<-|[]]].
  - destruct (Hw d Hin) as [Hp Hb]. split; [exact Hp|].
    apply lookup_insert_is_Some. destruct (decide (file_name f = filename d)); auto.
  - split; [reflexivity|]. cbn [filename inserted_row].
    rewrite lookup_insert_eq. eauto.
Qed.

(** X6.  If every row names, in [s3_path] as in [filename], an object the
    bucket holds, this is still so after every upload, whatever its
    outcome, and after every run of the worker. *)
Theorem rows_keep_their_objects (w : World) :
  rows_have_objects w ->
  (forall ns env f, rows_have_objects (world_uploaded ns env f w)) /\
  (forall env document_id, rows_have_objects (world_after env document_id w)).
Proof.
  intros Hw. split.
  - intros ns env f.
    destruct (world_uploaded_cases ns env f w) as [-> | [-> | [k ->]]].
    + exact Hw.
    + apply rows_have_objects_stored, Hw.
    + exact (rows_have_objects_stored f w Hw).
  - intros env k. destruct (query_first k (table w)) as [d|] eqn:H.
    + rewrite (world_after_found _ _ _ _ H). intros d' Hin.
      cbn [table bucket set_table] in *.
      apply in_update_status in Hin as (d0 & Hin & Hcore).
      injection Hcore as _ -> -> _. apply Hw, Hin.
    + rewrite (world_after_missing _ _ _ H). exact Hw.
Qed.

Lemma rows_keep_their_objects_witness :
  rows_have_objects (world_after store_down 1 (world1 QUEUED)).
Proof.
  apply (rows_keep_their_objects (world1 QUEUED)).
  intros d [<-|[]]. split; [reflexivity|].
  exists ten_bytes. vm_compute. reflexivity.
Defined.

(** X9.  An upload changes the world only once its object is written: if
    the write did not succeed, the world is what it was; if it did, the
    object is in the bucket and the row in the table, and they stay there
    however the run ends. *)
Theorem upload_changes_world_only_after_write
    (ns : Namespace) (env : Env) (f : UploadFile) (w : World) :
  let t := snd (run_upload ns env f w) in
  let w' := world_uploaded ns env f w in
  (~ In (PutObject (file_name f) true) t -> w' = w) /\
  (In (PutObject (file_name f) true) t ->
     bucket w' !! file_name f = Some (file f) /\
     In (inserted_row f w) (table w')).
Proof.
  unfold world_uploaded.
  destruct (run_upload_cases ns env f w); cbn [fst snd].
  - split; [reflexivity|]. not_in.
  - split; [reflexivity|]. not_in.
  - split; [intros Hn; destruct Hn; left; reflexivity|]. intros _.
    cbn [bucket table stored set_table set_bucket]. split.
    + apply lookup_insert_eq.
    + apply in_or_app. right. left. reflexivity.
  - split; [intros Hn; destruct Hn; left; reflexivity|]. intros _.
    cbn [bucket table stored set_table set_bucket set_broker]. split.
    + apply lookup_insert_eq.
    + apply in_or_app. right. left. reflexivity.
Qed.

(** X11.  The size check is a strict comparison: the body answers 413
    exactly when the declared size is above [MAX_FILE_SIZE]; a declared
    size equal to the limit goes on to the object store. *)
Theorem size_check_boundary
    (req : Request) (env : Env) (f : UploadFile) (w : World) (n : Z) :
  declares req n ->
  (n > MAX_FILE_SIZE <-> fst (fst (run_upload (Some req) env f w)) = Exc too_large).
Proof.
  intros (v & Hv & Hn). split.
  - intros Hgt. rewrite (body_rejects_oversized req env f w v n Hv Hn Hgt). reflexivity.
  - intros H. destruct (decide (n > MAX_FILE_SIZE)) as [Hgt|Hle]; [exact Hgt|].
    exfalso. revert H.
    destruct (query_first_app_new (id_seq w) (table w) (inserted_row f w) eq_refl)
      as [d Hd].
    unfold too_large. exec. rewrite Hv. exec. rewrite Hn. exec.
    rewrite bool_decide_eq_false_2 by exact Hle. exec.
    destruct (client_fault env) as [[]|]; exec; [discriminate..|].
    destruct (put_fault env); exec; [discriminate|].
    fold (inserted_row f w). rewrite Hd. exec.
    destruct (enqueue_fault env) as [[]|]; exec; discriminate.
Qed.

Lemma size_check_boundary_witness :
  fst (fst (run_upload (Some (with_length "26214400")) healthy a_txt empty_world))
    <> Exc too_large /\
  fst (fst (run_upload (Some (with_length "26214401")) healthy a_txt empty_world))
    = Exc too_large.
Proof.
  split.
  - intros H.
    apply (size_check_boundary (with_length "26214400") healthy a_txt empty_world
             26214400) in H.
    + vm_compute in H. discriminate H.
    + exists "26214400". split; vm_compute; reflexivity.
  - apply (size_check_boundary (with_length "26214401") healthy a_txt empty_world
             26214401).
    + exists "26214401". split; vm_compute; reflexivity.
    + vm_compute. reflexivity.
Defined.

Lemma int_error (v : string) (e : Exn) :
  int v = Exc e -> exists m, e = ValueError m.
Proof.
  unfold int, invalid_literal, too_many_digits. intros H.
  repeat (match type of H with
          | (let '(_, _) := ?x in _) = _ => destruct x
          | match ?x with _ => _ end = _ => destruct x
          | (if ?x then _ else _) = _ => destruct x
          end; try discriminate H).
  all: injection H as <-; eauto.
Qed.

(** X12.  A Content-Length the body cannot use writes nothing: an empty
    value is treated like a missing header and answered 411; a value that
    [int] rejects makes the body raise [ValueError], which the client sees
    as the server's 500.  In both cases the world is what it was. *)
Theorem unusable_length_writes_nothing
    (req : Request) (env : Env) (f : UploadFile) (w : World) (v : string) :
  headers req !! "content-length" = Some v ->
  (v = "" ->
     run_upload (Some req) env f w =
       (Exc (HTTPException 411 "Content-Length header required."), w, [DbClose])) /\
  (forall e, v <> "" -> int v = Exc e ->
     run_upload (Some req) env f w = (Exc e, w, [DbClose]) /\
     respond (Exc e) = server_error).
Proof.
  intros Hh. split.
  - intros ->. apply body_requires_length. rewrite Hh. reflexivity.
  - intros e Hne He. destruct (int_error v e He) as [m ->]. split; [|reflexivity].
    exec. rewrite Hh. unfold truthy. rewrite bool_decide_eq_false_2 by exact Hne.
    exec. rewrite He. reflexivity.
Qed.

Lemma unusable_length_writes_nothing_witness :
  exists e,
    run_upload (Some (with_length "abc")) healthy a_txt empty_world
      = (Exc e, empty_world, [DbClose]) /\
    respond (Exc e) = server_error.
Proof.
  destruct (unusable_length_writes_nothing (with_length "abc") healthy a_txt
              empty_world "abc") as [_ H].
  - vm_compute. reflexivity.
  - exists (ValueError "invalid literal for int() with base 10: 'abc'").
    apply H; [discriminate|]. vm_compute. reflexivity.
Defined.

(** * The session of a request *)

(** X13.  [get_db] hands the handler a new session and closes it on every
    way out: the handler's result, value or exception, passes through
    unchanged, closing is the last effect, and closing commits nothing, so
    what the handler added or changed without committing is dropped. *)
Theorem get_db_releases {A : Type} (handler : M A) (s : Frame)
    (r : Res A) (s' : Frame) (t : list Event) :
  get_db handler s = (r, s', t) ->
  exists s0 t0,
    handler {| world := world s; db := SessionLocal_; doc := doc s |} = (r, s0, t0) /\
    t = t0 ++ [DbClose] /\
    world s' = world s0 /\
    closed (db s') = true /\ new (db s') = [] /\ dirty (db s') = [].
Proof.
  unfold get_db. exec.
  destruct (handler _) as [[r0 s0] t0] eqn:E. exec.
  intros [= <- <- <-]. exists s0, t0. split; [reflexivity|].
  repeat split.
Qed.

Lemma get_db_releases_witness :
  exists s' t0,
    get_db (db_add "a.txt" "a.txt") (enter empty_world)
      = (Val tt, s', t0 ++ [DbClose]) /\
    table (world s') = [] /\ new (db s') = [].
Proof.
  destruct (get_db (db_add "a.txt" "a.txt") (enter empty_world)) as [[r s'] t] eqn:E.
  destruct (get_db_releases _ _ _ _ _ E) as (s0 & t0 & Hh & -> & Hw & _ & Hn & _).
  vm_compute in Hh. injection Hh as <- <- <-.
  exists s', []. split; [reflexivity|]. rewrite Hw. split; [reflexivity|exact Hn].
Defined.

(** * More on start-up *)

Lemma lifespan_serves_unverified_witness :
  fst (lifespan default_config store_unreachable) = Val tt.
Proof.
  apply lifespan_serves_unverified. intros i. split; [reflexivity|].
  eexists. reflexivity.
Defined.

Lemma attempt_transient (cfg : Config) (a : Attempt) (i : nat) (mc : option Client) :
  transient a ->
  exists t,
    attempt cfg a i mc =
      (Continue,
       match client_raises a with Some _ => mc | None => Some S3Client end,
       t) /\
    sleeps t = [delay_secs].
Proof.
  unfold transient, attempt. destruct (client_raises a) as [f|].
  - intros Hr. destruct f as [code m|m]; unfold on_exception, thrown.
    + cbn in Hr. rewrite bool_decide_eq_false_2 by exact Hr.
      eexists. split; reflexivity.
    + eexists. split; reflexivity.
  - destruct (head_bucket a) as [f|]; [|intros []].
    intros Hr. destruct f as [code m|m]; unfold on_exception, thrown.
    + cbn in Hr. rewrite bool_decide_eq_false_2 by exact Hr.
      eexists. split; reflexivity.
    + eexists. split; reflexivity.
Qed.

Lemma connect_step (cfg : Config) (store : nat -> Attempt) (n i : nat)
    (mc : option Client) :
  connect cfg store (S n) i mc =
    match attempt cfg (store i) i mc with
    | (Break, c, t) => (Val c, t)
    | (Propagate e, _, t) => (Exc e, t)
    | (Continue, c, t) =>
        let '(r, t') := connect cfg store n (S i) c in (r, t ++ t')
    end.
Proof. reflexivity. Qed.

(** [k] passes that fail and are retried: [k] pauses, and the loop goes on
    from pass [i + k]. *)
Lemma connect_retries (cfg : Config) (store : nat -> Attempt) (k : nat) :
  forall i n mc,
    (forall j, (j < k)%nat -> transient (store (i + j)%nat)) ->
    exists mc' t0,
      sleeps t0 = replicate k delay_secs /\
      (forall r t, connect cfg store n (i + k) mc' = (r, t) ->
                   connect cfg store (k + n) i mc = (r, t0 ++ t)) /\
      ((forall j, (j < k)%nat -> client_raises (store (i + j)%nat) <> None) ->
       mc' = mc) /\
      (mc <> None -> mc' <> None).
Proof.
  induction k as [|k IH]; intros i n mc Htr.
  - exists mc, []. split; [reflexivity|]. rewrite Nat.add_0_r.
    split; [intros r t E; exact E|]. split; auto.
  - assert (H0 : transient (store i)).
    { specialize (Htr 0%nat). rewrite Nat.add_0_r in Htr. apply Htr. lia. }
    destruct (attempt_transient cfg (store i) i mc H0) as (t1 & Hat & Hs1).
    set (mc1 := match client_raises (store i) with
                | Some _ => mc
                | None => Some S3Client
                end) in *.
    destruct (IH (S i) n mc1) as (mc' & t0 & Hs0 & Hgo & Hsame & Hsome).
    { intros j Hj. specialize (Htr (S j)). rewrite Nat.add_succ_r in Htr.
      apply Htr. lia. }
    exists mc', (t1 ++ t0). split; [|split; [|split]].
    + rewrite sleeps_app, Hs1, Hs0. reflexivity.
    + intros r t E. rewrite Nat.add_succ_r in E.
      change (S k + n)%nat with (S (k + n)). rewrite connect_step, Hat.
      rewrite (Hgo r t E), app_assoc. reflexivity.
    + intros Hnone. rewrite Hsame.
      * unfold mc1. specialize (Hnone 0%nat). rewrite Nat.add_0_r in Hnone.
        destruct (client_raises (store i)); [reflexivity|].
        destruct Hnone; [lia|reflexivity].
      * intros j Hj. specialize (Hnone (S j)). rewrite Nat.add_succ_r in Hnone.
        apply Hnone. lia.
    + intros Hmc. apply Hsome. unfold mc1.
      destruct (client_raises (store i)); [exact Hmc|discriminate].
Qed.

Lemma lifespan_of_connect (cfg : Config) (store : nat -> Attempt)
    (r : Res (option Client)) (t : list Event) :
  connect cfg store retries 0 None = (r, t) ->
  fst (lifespan cfg store) =
    match r with
    | Exc e => Exc e
    | Val None => Exc (RuntimeError "Could not connect to MinIO after several retries.")
    | Val (Some _) => Val tt
    end /\
  sleeps (snd (lifespan cfg store)) = sleeps t.
Proof.
  intros E. unfold lifespan. rewrite E.
  destruct r as [[c|]|e]; cbn [fst snd]; rewrite sleeps_app; split; reflexivity.
Qed.

(** X16.  As soon as a pass finds the bucket, after [k] passes that failed
    and were retried, start-up goes on to serve, having paused exactly [k]
    times. *)
Theorem lifespan_succeeds_after_retries
    (cfg : Config) (store : nat -> Attempt) (k : nat) :
  (k < retries)%nat ->
  (forall j, (j < k)%nat -> transient (store j)) ->
  bucket_found (store k) ->
  fst (lifespan cfg store) = Val tt /\
  sleeps (snd (lifespan cfg store)) = replicate k delay_secs.
Proof.
  intros Hk Htr [Hc Hh].
  destruct (connect_retries cfg store k 0 (retries - k) None Htr)
    as (mc' & t0 & Hs & Hgo & _ & _).
  assert (Hlast : exists t, connect cfg store (retries - k) (0 + k) mc'
                            = (Val (Some S3Client), t) /\ sleeps t = []).
  { replace (retries - k)%nat with (S (retries - S k)) by lia.
    rewrite connect_step. unfold attempt. cbn [Nat.add]. rewrite Hc, Hh.
    eexists. split; reflexivity. }
  destruct Hlast as (t & Hlast & Hst).
  apply Hgo in Hlast. replace (k + (retries - k))%nat with retries in Hlast by lia.
  destruct (lifespan_of_connect cfg store _ _ Hlast) as [Hr Hsl].
  split; [exact Hr|]. rewrite Hsl, sleeps_app, Hs, Hst, app_nil_r. reflexivity.
Qed.

Lemma lifespan_succeeds_after_retries_witness :
  let store := fun i : nat =>
    if (i <? 2)%nat
    then {| client_raises := None; head_bucket := Some unreachable; create_bucket := None |}
    else {| client_raises := None; head_bucket := None; create_bucket := None |} in
  fst (lifespan default_config store) = Val tt /\
  sleeps (snd (lifespan default_config store)) = [2; 2].
Proof.
  intros store.
  apply (lifespan_succeeds_after_retries default_config store 2).
  - unfold retries. lia.
  - intros j Hj. unfold store. destruct j as [|[|j]]; [exact I|exact I|lia].
  - split; reflexivity.
Defined.

(** X17.  When a pass gets 404 from [head_bucket], after [k] passes that
    failed and were retried, the bucket is created and start-up goes on to
    serve; if [create_bucket] raises, that exception ends start-up at once,
    with no further pass.  Either way there were exactly [k] pauses. *)
Theorem lifespan_creates_missing_bucket
    (cfg : Config) (store : nat -> Attempt) (k : nat) :
  (k < retries)%nat ->
  (forall j, (j < k)%nat -> transient (store j)) ->
  bucket_missing (store k) ->
  fst (lifespan cfg store) =
    match create_bucket (store k) with
    | None => Val tt
    | Some e => Exc (thrown e)
    end /\
  sleeps (snd (lifespan cfg store)) = replicate k delay_secs.
Proof.
  intros Hk Htr [Hc [m Hh]].
  destruct (connect_retries cfg store k 0 (retries - k) None Htr)
    as (mc' & t0 & Hs & Hgo & _ & _).
  assert (Hlast : exists t,
            connect cfg store (retries - k) (0 + k) mc' =
              (match create_bucket (store k) with
               | None => Val (Some S3Client)
               | Some e => Exc (thrown e)
               end, t) /\ sleeps t = []).
  { replace (retries - k)%nat with (S (retries - S k)) by lia.
    rewrite connect_step. unfold attempt. cbn [Nat.add]. rewrite Hc, Hh.
    unfold on_exception, thrown at 1. cbn [bool_decide].
    rewrite bool_decide_eq_true_2 by reflexivity.
    destruct (create_bucket (store k)); eexists; split; reflexivity. }
  destruct Hlast as (t & Hlast & Hst).
  apply Hgo in Hlast. replace (k + (retries - k))%nat with retries in Hlast by lia.
  destruct (lifespan_of_connect cfg store _ _ Hlast) as [Hr Hsl].
  split.
  - rewrite Hr. destruct (create_bucket (store k)); reflexivity.
  - rewrite Hsl, sleeps_app, Hs, Hst, app_nil_r. reflexivity.
Qed.

Lemma lifespan_creates_missing_bucket_witness :
  let store := fun _ : nat =>
    {| client_raises := None; head_bucket := Some (ClientErr "404" "Not Found");
       create_bucket := Some (ClientErr "AccessDenied" "Access Denied") |} in
  fst (lifespan default_config store)
    = Exc (ClientError "AccessDenied" "Access Denied") /\
  sleeps (snd (lifespan default_config store)) = [].
Proof.
  intros store.
  apply (lifespan_creates_missing_bucket default_config store 0).
  - unfold retries. lia.
  - intros j Hj. lia.
  - split; [reflexivity|]. eexists. reflexivity.
Defined.

Lemma on_exception_propagate (cfg : Config) (a : Attempt) (i : nat)
    (mc : option Client) (e e' : Exn) (t : list Event) :
  on_exception cfg a i mc e = (Propagate e', t) ->
  forall m, e' <> RuntimeError m.
Proof.
  unfold on_exception. destruct e; try discriminate.
  destruct (bool_decide (code = "404")); [|discriminate].
  destruct mc; [destruct (create_bucket a) as [[]|]|];
    try discriminate; intros [= <- _] m'; discriminate.
Qed.

Lemma on_exception_none_break (cfg : Config) (a : Attempt) (i : nat)
    (e : Exn) (t : list Event) :
  on_exception cfg a i None e <> (Break, t).
Proof.
  unfold on_exception. destruct e; try discriminate.
  destruct (bool_decide (code = "404")); discriminate.
Qed.

Lemma connect_exc_not_runtime (cfg : Config) (store : nat -> Attempt) (n : nat) :
  forall i mc e t,
    connect cfg store n i mc = (Exc e, t) -> forall m, e <> RuntimeError m.
Proof.
  induction n as [|n IH]; intros i mc e t H; [discriminate H|].
  rewrite connect_step in H. unfold attempt in H.
  destruct (client_raises (store i)) as [f|].
  - destruct (on_exception cfg (store i) i mc (thrown f)) as [[] t1] eqn:Eo.
    + discriminate H.
    + destruct (connect cfg store n (S i) mc) as [r t'] eqn:E'.
      injection H as -> _. exact (IH _ _ _ _ E').
    + injection H as <- _. exact (on_exception_propagate _ _ _ _ _ _ _ Eo).
  - destruct (head_bucket (store i)) as [f|]; [|discriminate H].
    destruct (on_exception cfg (store i) i (Some S3Client) (thrown f)) as [[] t1] eqn:Eo.
    + discriminate H.
    + destruct (connect cfg store n (S i) (Some S3Client)) as [r t'] eqn:E'.
      injection H as -> _. exact (IH _ _ _ _ E').
    + injection H as <- _. exact (on_exception_propagate _ _ _ _ _ _ _ Eo).
Qed.

Lemma connect_none (cfg : Config) (store : nat -> Attempt) (n : nat) :
  forall i t,
    connect cfg store n i None = (Val None, t) ->
    forall j, (j < n)%nat -> client_raises (store (i + j)%nat) <> None.
Proof.
  induction n as [|n IH]; intros i t H j Hj; [lia|].
  rewrite connect_step in H. unfold attempt in H.
  destruct (client_raises (store i)) as [f|] eqn:Ec.
  - destruct (on_exception cfg (store i) i None (thrown f)) as [[] t1] eqn:Eo.
    + destruct (on_exception_none_break _ _ _ _ _ Eo).
    + destruct (connect cfg store n (S i) None) as [r t'] eqn:E'.
      injection H as -> _.
      destruct j as [|j].
      * rewrite Nat.add_0_r, Ec. discriminate.
      * rewrite Nat.add_succ_r. apply (IH (S i) t' E' j). lia.
    + discriminate H.
  - exfalso. destruct (head_bucket (store i)) as [f|]; [|discriminate H].
    destruct (on_exception cfg (store i) i (Some S3Client) (thrown f)) as [[] t1] eqn:Eo.
    + discriminate H.
    + destruct (connect cfg store n (S i) (Some S3Client)) as [r t'] eqn:E'.
      injection H as -> _. exact (connect_keeps_client _ _ _ _ _ _ _ E' eq_refl).
    + discriminate H.
Qed.

(** X18.  Start-up is aborted with the [RuntimeError] of line 92 only when
    the client itself could not be built at any of the five passes; and
    when, at every pass, building it fails in a way that is retried,
    start-up is aborted with that error after five pauses. *)
Theorem lifespan_aborts_without_client (cfg : Config) (store : nat -> Attempt) :
  (forall m, fst (lifespan cfg store) = Exc (RuntimeError m) ->
     forall j, (j < retries)%nat -> client_raises (store j) <> None) /\
  ((forall j, (j < retries)%nat ->
      exists f, client_raises (store j) = Some f /\ retryable f) ->
   fst (lifespan cfg store)
     = Exc (RuntimeError "Could not connect to MinIO after several retries.") /\
   sleeps (snd (lifespan cfg store)) = replicate retries delay_secs).
Proof.
  split.
  - intros m H j Hj.
    destruct (connect cfg store retries 0 None) as [r t] eqn:E.
    destruct (lifespan_of_connect cfg store r t E) as [Hr _]. rewrite Hr in H.
    destruct r as [[c|]|e].
    + discriminate H.
    + exact (connect_none cfg store retries 0 t E j Hj).
    + injection H as ->. destruct (connect_exc_not_runtime _ _ _ _ _ _ _ E m eq_refl).
  - intros Hall.
    destruct (connect_retries cfg store retries 0 0 None)
      as (mc' & t0 & Hs & Hgo & Hsame & _).
    { intros j Hj. destruct (Hall j Hj) as (f & Hf & Hr).
      unfold transient. cbn [Nat.add]. rewrite Hf. exact Hr. }
    rewrite Hsame in Hgo.
    2:{ intros j Hj. destruct (Hall j Hj) as (f & Hf & _).
        cbn [Nat.add]. rewrite Hf. discriminate. }
    specialize (Hgo (Val None) [] eq_refl).
    rewrite Nat.add_0_r, app_nil_r in Hgo.
    destruct (lifespan_of_connect cfg store _ _ Hgo) as [Hr Hsl].
    split; [exact Hr|]. rewrite Hsl. exact Hs.
Qed.

Lemma lifespan_aborts_without_client_witness :
  let store := fun _ : nat =>
    {| client_raises := Some (Failure "Invalid endpoint: http://:9000");
       head_bucket := None; create_bucket := None |} in
  fst (lifespan default_config store)
    = Exc (RuntimeError "Could not connect to MinIO after several retries.") /\
  sleeps (snd (lifespan default_config store)) = [2; 2; 2; 2; 2].
Proof.
  intros store.
  apply (lifespan_aborts_without_client default_config store).
  intros j Hj. eexists. split; [reflexivity|exact I].
Defined.

(** * The upload route as registered *)



